(** * cursorarena.io: the map-authoring host (lua_api.js) and the client
    input buffers (bootstrap.js)

  A shallow embedding of the two JavaScript modules.  JS numbers (IEEE
  doubles) are kept abstract: every section is parametric in the number
  type and its operations, and uses no arithmetic law beyond the ones
  stated as section hypotheses.  JS objects that are mutated through a
  shared reference (the module-level [mapData]) live in an explicit
  store. *)

From stdpp Require Import gmap strings list pretty.

Set Warnings "-register-all".

Module LuaApi.

Section Authoring.

Context {number : Type}.

(** ** Lua values, as the host functions see them on the stack *)

Inductive lua_value :=
| LNil
| LBoolean (b : bool)
| LNumber (n : number)
| LString (s : string)
| LTable (entries : list (lua_value * lua_value))  (* in lua_next order *)
| LFunction (closure : nat)
| LOther.

(** Lua's string-to-number coercion (used by lua_isnumber, lua_tonumber
    and luaL_checknumber); it belongs to the Lua runtime. *)
Variable str2number : string -> option number.

(** Lua's number-to-string conversion (used by lua_tojsstring on a
    number); it belongs to the Lua runtime. *)
Variable number2str : number -> string.

Definition lua_tonumberx (v : lua_value) : option number :=
  match v with
  | LNumber n => Some n
  | LString s => str2number s
  | _ => None
  end.

Definition lua_isnumber (v : lua_value) : bool :=
  match lua_tonumberx v with Some _ => true | None => false end.

Definition lua_isboolean (v : lua_value) : bool :=
  match v with LBoolean _ => true | _ => false end.

Definition lua_toboolean (v : lua_value) : bool :=
  match v with LNil => false | LBoolean b => b | _ => true end.

(** lua_isstring accepts strings and numbers. *)
Definition lua_isstring (v : lua_value) : bool :=
  match v with LString _ | LNumber _ => true | _ => false end.

(** lua_tojsstring of a string.  (A number would be converted to its
    decimal form; the host only reaches this call with numbers ruled
    out.) *)
Definition lua_tojsstring (v : lua_value) : option string :=
  match v with LString s => Some s | _ => None end.

(** ** JS side: property records and the map document *)

Inductive js_value :=
| JsNumber (n : number)
| JsBoolean (b : bool)
| JsString (s : string).

(** [props[key] = v] on a plain object literal, for a primitive [v]: the
    inherited [__proto__] setter ignores primitives, every other key
    becomes an own property. *)
Definition js_set (key : string) (v : js_value)
    (props : gmap string js_value) : gmap string js_value :=
  if decide (key = "__proto__") then props else <[key := v]> props.

Record map_doc := MapDoc {
  gravity : option (number * number);
  dimensions : option (number * number);
  entities : option (list (gmap string js_value))
}.

Definition empty_doc : map_doc := MapDoc None None None.

(** Module-level bindings of lua_api.js.  [mapData] holds a reference
    into [heap]; [onMouseClick] is undefined ([None]) or a registry
    reference; [console] collects the lines written by console.error. *)
Record module_state := ModuleState {
  heap : list map_doc;
  mapData : nat;
  onMouseClick : option Z;
  console : list string
}.

(** [let mapData = {};  let onMouseClick;] at module load. *)
Definition module_init : module_state := ModuleState [empty_doc] 0 None [].

Definition update_mapData (f : map_doc -> map_doc) (m : module_state)
    : module_state :=
  ModuleState (alter f (mapData m) (heap m)) (mapData m) (onMouseClick m)
              (console m).

Definition read_doc (m : module_state) (ref : nat) : option map_doc :=
  heap m !! ref.

(** ** The Lua state *)

Inductive api :=
| Api_set_gravity
| Api_create_entity
| Api_on_mouse_click
| Api_set_map_dimensions.

Inductive global_value :=
| GStd
| GHost (f : api)
| GLib (fields : list (string * api)).

(** [registry] is the array part of the Lua registry, where luaL_ref
    stores referenced values. *)
Record lua_State := LuaState {
  globals : gmap string global_value;
  registry : list lua_value
}.

Definition LUA_REFNIL : Z := (-1)%Z.

(** luaL_ref of the value [v] on top of the stack, the free list being
    empty (nothing is ever unreferenced): nil gets LUA_REFNIL, any other
    value the new reference [rawlen(registry) + 1]. *)
Definition luaL_ref (v : lua_value) (L : lua_State) : Z * lua_State :=
  match v with
  | LNil => (LUA_REFNIL, L)
  | _ => ((Z.of_nat (length (registry L)) + 1)%Z,
          LuaState (globals L) (registry L ++ [v]))
  end.

Definition luaL_checknumber (args : list lua_value) (i : nat)
    : option number :=
  v ← args !! (i - 1); lua_tonumberx v.

(** ** Host functions.  [None] is a raised Lua error. *)

Definition api_set_gravity (args : list lua_value) (L : lua_State)
    (m : module_state) : option (lua_State * module_state) :=
  x ← luaL_checknumber args 1;
  y ← luaL_checknumber args 2;
  Some (L, update_mapData
             (fun d => MapDoc (Some (x, y)) (dimensions d) (entities d)) m).

Definition api_set_map_dimensions (args : list lua_value) (L : lua_State)
    (m : module_state) : option (lua_State * module_state) :=
  width ← luaL_checknumber args 1;
  height ← luaL_checknumber args 2;
  Some (L, update_mapData
             (fun d => MapDoc (gravity d) (Some (width, height)) (entities d)) m).

(** One iteration of the [lua_next] loop: the three tests in the order
    of the source. *)
Definition copy_field (props : gmap string js_value)
    (kv : string * lua_value) : gmap string js_value :=
  let '(key, v) := kv in
  if lua_isnumber v then
    match lua_tonumberx v with
    | Some n => js_set key (JsNumber n) props
    | None => props
    end
  else if lua_isboolean v then
    js_set key (JsBoolean (lua_toboolean v)) props
  else if lua_isstring v then
    match lua_tojsstring v with
    | Some s => js_set key (JsString s) props
    | None => props
    end
  else props.

Definition copy_props (fields : list (string * lua_value))
    : gmap string js_value :=
  foldl copy_field ∅ fields.

Definition push_entity (props : gmap string js_value) (d : map_doc)
    : map_doc :=
  MapDoc (gravity d) (dimensions d)
         (Some (default [] (entities d) ++ [props])).

(** The property name [props[key]] uses for [key = lua_tojsstring(L, -2)]:
    a string key as it is, a number key converted to a string, and
    ["null"] for a key of another type, for which lua_tojsstring returns
    null. *)
Definition js_key (k : lua_value) : string :=
  match k with
  | LString s => s
  | LNumber n => number2str n
  | _ => "null"
  end.

Definition is_number_key (k : lua_value) : bool :=
  match k with LNumber _ => true | _ => false end.

(** The position of the string key [s] among the entries. *)
Fixpoint key_position (s : string) (entries : list (lua_value * lua_value))
    : option nat :=
  match entries with
  | [] => None
  | (k, _) :: rest =>
      match k with
      | LString s' =>
          if decide (s = s') then Some 0 else S <$> key_position s rest
      | _ => S <$> key_position s rest
      end
  end.

(** How the [while (lua_next(L, 1) !== 0)] loop ends. *)
Inductive traversal :=
| Copied (props : gmap string js_value)   (* lua_next returned 0 *)
| InvalidKey                              (* lua_next raised an error *)
| Endless.                                (* the loop does not end *)

(** The loop, started after [pos] entries.  lua_tojsstring converts a
    number key to a string in place, on the stack, so the next lua_next
    is handed that string instead of the key: it raises "invalid key to
    'next'" unless the table also has the string as a key, in which case
    the traversal resumes after that entry.  [fuel] bounds the number of
    entries visited. *)
Fixpoint lua_next_loop (fuel : nat) (entries : list (lua_value * lua_value))
    (pos : nat) (props : gmap string js_value) : traversal :=
  match fuel with
  | 0 => Endless
  | S fuel' =>
      match entries !! pos with
      | None => Copied props
      | Some (k, v) =>
          let props' := copy_field props (js_key k, v) in
          match k with
          | LNumber n =>
              match key_position (number2str n) entries with
              | Some twin => lua_next_loop fuel' entries (S twin) props'
              | None => InvalidKey
              end
          | _ => lua_next_loop fuel' entries (S pos) props'
          end
      end
  end.

(** A traversal that ends visits no entry twice, so one that has not
    ended after as many visits as there are entries never will. *)
Definition copy_table (entries : list (lua_value * lua_value)) : traversal :=
  lua_next_loop (S (length entries)) entries 0 ∅.

(** A call whose loop does not end never returns; like a Lua loop that
    does not end it occurs in no run that the traces of this model
    describe, and is given no result here either. *)
Definition api_create_entity (args : list lua_value) (L : lua_State)
    (m : module_state) : option (lua_State * module_state) :=
  match args !! 0 with
  | Some (LTable entries) =>
      match copy_table entries with
      | Copied props => Some (L, update_mapData (push_entity props) m)
      | InvalidKey | Endless => None
      end
  | _ => None
  end.

(** luaL_checktype looks at argument 1; luaL_ref takes the value on top
    of the stack, which is the last argument. *)
Definition api_on_mouse_click (args : list lua_value) (L : lua_State)
    (m : module_state) : option (lua_State * module_state) :=
  match args !! 0, last args with
  | Some (LFunction _), Some top =>
      let '(ref, L') := luaL_ref top L in
      Some (L', ModuleState (heap m) (mapData m) (Some ref) (console m))
  | _, _ => None
  end.

Definition api_run (f : api) :=
  match f with
  | Api_set_gravity => api_set_gravity
  | Api_create_entity => api_create_entity
  | Api_on_mouse_click => api_on_mouse_click
  | Api_set_map_dimensions => api_set_map_dimensions
  end.

Definition cursorArenaLib : list (string * api) :=
  [ ("set_gravity", Api_set_gravity);
    ("create_entity", Api_create_entity);
    ("on_mouse_click", Api_on_mouse_click);
    ("set_map_dimensions", Api_set_map_dimensions) ].

(** ** Scripts

    The four host functions push no result, so a script cannot observe
    the host's state: its run is a fixed sequence of calls.  A script is
    modelled by that sequence; [SRaise] is any error raised by Lua itself
    (a syntax error, [error()], arithmetic on nil, ...).  A protected call
    is one made through [pcall].  The sequences describe runs that end. *)

Inductive fn_expr :=
| FGlobal (name : string)
| FField (table name : string).

Inductive stmt :=
| SCall (protected : bool) (fn : fn_expr) (args : list lua_value)
| SRaise.

(** What luaL_openlibs installs, and whether a call of a standard function
    returns normally; both belong to the Lua runtime. *)
Variable std_names : list string.
Variable std_call : string -> list lua_value -> bool.

Inductive callee :=
| CStd (name : string)
| CHost (f : api).

Fixpoint assoc {A} (k : string) (l : list (string * A)) : option A :=
  match l with
  | [] => None
  | (k', a) :: l' => if decide (k = k') then Some a else assoc k l'
  end.

Definition resolve (fn : fn_expr) (L : lua_State) : option callee :=
  match fn with
  | FGlobal name =>
      match globals L !! name with
      | Some GStd => Some (CStd name)
      | Some (GHost f) => Some (CHost f)
      | _ => None
      end
  | FField table name =>
      match globals L !! table with
      | Some GStd => Some (CStd (table +:+ "." +:+ name))
      | Some (GLib fields) => CHost <$> assoc name fields
      | _ => None
      end
  end.

Definition call (fn : fn_expr) (args : list lua_value) (L : lua_State)
    (m : module_state) : option (lua_State * module_state) :=
  match resolve fn L with
  | Some (CHost f) => api_run f args L m
  | Some (CStd name) => if std_call name args then Some (L, m) else None
  | None => None
  end.

(** luaL_dostring; the boolean is [result === LUA_OK]. *)
Fixpoint luaL_dostring (script : list stmt) (L : lua_State)
    (m : module_state) : bool * lua_State * module_state :=
  match script with
  | [] => (true, L, m)
  | SRaise :: _ => (false, L, m)
  | SCall protected fn args :: rest =>
      match call fn args L m with
      | Some (L', m') => luaL_dostring rest L' m'
      | None => if protected then luaL_dostring rest L m else (false, L, m)
      end
  end.

(** The registry of a new state holds the main thread and the globals
    table at indices 1 and 2. *)
Definition luaL_newstate : lua_State := LuaState ∅ [LOther; LOther].

Definition lua_setglobal (name : string) (v : global_value) (L : lua_State)
    : lua_State :=
  LuaState (<[name := v]> (globals L)) (registry L).

Definition luaL_openlibs (L : lua_State) : lua_State :=
  foldl (fun L name => lua_setglobal name GStd L) L std_names.

Definition register_globals (lib : list (string * api)) (L : lua_State)
    : lua_State :=
  foldl (fun L kf => lua_setglobal kf.1 (GHost kf.2) L) L lib.

(** The Lua state runLuaScript prepares before running the script. *)
Definition script_state : lua_State :=
  register_globals cursorArenaLib
    (lua_setglobal "cursor_arena" (GLib cursorArenaLib)
       (luaL_openlibs luaL_newstate)).

(** [mapData = {}]: a new object, bound to the module variable. *)
Definition reset_mapData (m : module_state) : module_state :=
  ModuleState (heap m ++ [empty_doc]) (length (heap m)) (onMouseClick m)
              (console m).

Definition console_error (line : string) (m : module_state) : module_state :=
  ModuleState (heap m) (mapData m) (onMouseClick m) (console m ++ [line]).

(** The result is [null] ([None]) or the reference held by [mapData]. *)
Definition runLuaScript (script : list stmt) (m : module_state)
    : option nat * module_state :=
  let m0 := reset_mapData m in
  let '(ok, _, m1) := luaL_dostring script script_state m0 in
  if ok then (Some (mapData m1), m1)
  else (None, console_error "Lua error:" m1).

(** The document the module variable refers to. *)
Definition current_doc (m : module_state) : option map_doc :=
  read_doc m (mapData m).

(** The document a call of runLuaScript hands back, if any. *)
Definition returned_doc (r : option nat * module_state)
    : option map_doc :=
  ref ← r.1; read_doc r.2 ref.

(** [m'] differs from [m] at most in the document [mapData] refers to and
    in the click handler. *)
Definition same_binding (m m' : module_state) : Prop :=
  mapData m' = mapData m ∧
  length (heap m') = length (heap m) ∧
  console m' = console m ∧
  ∀ ref, ref ≠ mapData m → heap m' !! ref = heap m !! ref.

(** The document after one create_entity call per table. *)
Fixpoint push_all (tables : list (list (string * lua_value)))
    (doc : map_doc) : map_doc :=
  match tables with
  | [] => doc
  | fields :: rest => push_all rest (push_entity (copy_props fields) doc)
  end.

(** The shape fields MAP_EDITOR_API.md lists for each shape. *)
Definition required_shape_fields (shape : string) : list string :=
  if decide (shape = "rect") then ["x1"; "y1"; "x2"; "y2"]
  else if decide (shape = "circle") then ["x"; "y"; "radius"]
  else [].

(** A "rect" or "circle" specification without one of its shape fields. *)
Definition missing_shape_fields (fields : list (string * lua_value)) : bool :=
  match assoc "shape" fields with
  | Some (LString shape) =>
      negb (forallb (fun key => bool_decide (is_Some (assoc key fields)))
                    (required_shape_fields shape))
  | _ => false
  end.

(** Lua numbers, booleans and strings. *)
Definition is_primitive (v : lua_value) : bool :=
  match v with
  | LNumber _ | LBoolean _ | LString _ => true
  | _ => false
  end.

(** The value a registry reference stands for. *)
Definition lua_rawgeti (L : lua_State) (ref : Z) : option lua_value :=
  if decide (0 < ref)%Z then registry L !! (Z.to_nat ref - 1) else None.

(** The handlers the host can still reach after registration. *)
Definition click_handlers (L : lua_State) (m : module_state)
    : list lua_value :=
  match onMouseClick m with
  | Some ref => option_list (lua_rawgeti L ref)
  | None => []
  end.

Definition on_mouse_click_stmt (closure : nat) : stmt :=
  SCall false (FGlobal "on_mouse_click") [LFunction closure].

(** A table whose keys are all strings: a table of named fields. *)
Definition named_table (fields : list (string * lua_value)) : lua_value :=
  LTable (map (fun kv => (LString kv.1, kv.2)) fields).

Definition create_entity_stmt (fields : list (string * lua_value)) : stmt :=
  SCall false (FGlobal "create_entity") [named_table fields].

(** ** Further notions used to describe runs *)

(** What a Lua value becomes in a property record: a string that converts
    to a number is stored as that number. *)
Definition js_of_lua (v : lua_value) : option js_value :=
  match v with
  | LNumber n => Some (JsNumber n)
  | LBoolean b => Some (JsBoolean b)
  | LString s =>
      Some (match str2number s with
            | Some n => JsNumber n
            | None => JsString s
            end)
  | _ => None
  end.

(** The two ways a script can name on_mouse_click. *)
Definition names_on_mouse_click (fn : fn_expr) : bool :=
  match fn with
  | FGlobal name => bool_decide (name = "on_mouse_click")
  | FField table name =>
      bool_decide (table = "cursor_arena") &&
      bool_decide (name = "on_mouse_click")
  end.

Definition registers_click (st : stmt) : bool :=
  match st with
  | SCall _ fn _ => names_on_mouse_click fn
  | SRaise => false
  end.

(** Several runLuaScript calls, one after the other. *)
Definition run_all (scripts : list (list stmt)) (m : module_state)
    : module_state :=
  foldl (fun m script => (runLuaScript script m).2) m scripts.

(** Two host calls in a row on the same Lua state. *)
Definition api_run2 (f : api) (a : list lua_value) (g : api)
    (b : list lua_value) (L : lua_State) (m : module_state)
    : option (lua_State * module_state) :=
  match api_run f a L m with
  | Some (L1, m1) => api_run g b L1 m1
  | None => None
  end.

(** The two functions that set a field of the map document. *)
Definition is_setter (f : api) : bool :=
  match f with
  | Api_set_gravity | Api_set_map_dimensions => true
  | _ => false
  end.

End Authoring.

(** ** A concrete runtime, for evaluating the model *)

Definition ex_str2number (s : string) : option Z :=
  if decide (s = "10") then Some 10%Z else None.

Definition ex_number2str (n : Z) : string := pretty n.

Definition ex_std_names : list string := ["print"; "error"].

Definition ex_std_call (name : string) (args : list (@lua_value Z)) : bool :=
  bool_decide (name = "print").

Definition ex_runLuaScript := runLuaScript ex_str2number ex_number2str ex_std_names ex_std_call.

Definition ex_rect : list (string * @lua_value Z) :=
  [ ("shape", LString "rect"); ("x1", LNumber 1%Z); ("y1", LNumber 1%Z);
    ("x2", LNumber 9%Z); ("y2", LNumber 2%Z); ("is_static", LBoolean true) ].

(** A "rect" that lacks all four corner fields. *)
Definition ex_bad_rect : list (string * @lua_value Z) :=
  [ ("shape", LString "rect") ].

Definition ex_copy_props := copy_props ex_str2number.

(** The table [{shape = "rect", 10}]: a named field and the number key 1. *)
Definition ex_numbered_table : list (@lua_value Z * @lua_value Z) :=
  [ (LString "shape", LString "rect"); (LNumber 1%Z, LNumber 10%Z) ].

(** The module after a first, successful run; its document has
    reference 1. *)
Definition ex_loaded : @module_state Z :=
  (ex_runLuaScript [create_entity_stmt ex_rect] module_init).2.

(** A script that creates an entity and then raises an error. *)
Definition ex_failing_script : list (@stmt Z) :=
  [create_entity_stmt ex_bad_rect; SRaise].

(** The module after a run that registered a click callback. *)
Definition ex_clicked : @module_state Z :=
  (ex_runLuaScript [on_mouse_click_stmt 7] module_init).2.

(** Two calls through pcall, the first of an undefined function. *)
Definition ex_protected_script : list (@stmt Z) :=
  [ SCall true (FGlobal "set_cursor_size") [LNumber 5%Z];
    SCall true (FGlobal "create_entity") [named_table ex_rect] ].

Definition ex_run_all := run_all ex_str2number ex_number2str ex_std_names ex_std_call.

End LuaApi.

Module Bootstrap.

Section Client.

Context {number : Type}.

(** JS arithmetic on doubles and numeric literals. *)
Variable num : Z -> number.
Variable add sub div : number -> number -> number.
Variable gt : number -> number -> bool.

Inductive json :=
| JNull
| JBool (b : bool)
| JNumber (n : number)
| JString (s : string)
| JArray (items : list json)
| JObject (fields : list (string * json)).

(** JSON.parse ([None]: it throws SyntaxError) and JSON.stringify. *)
Variable JSON_parse : string -> option json.
Variable JSON_stringify : json -> string.

Fixpoint own_property (key : string) (fields : list (string * json))
    : option json :=
  match fields with
  | [] => None
  | (k, v) :: rest => if decide (key = k) then Some v else own_property key rest
  end.

(** [message.key] for a parsed message: reading a property of [null]
    throws ([None]); on other values a missing property is [undefined]
    ([Some None]). *)
Definition get_property (message : json) (key : string)
    : option (option json) :=
  match message with
  | JNull => None
  | JObject fields => Some (own_property key fields)
  | _ => Some None
  end.

Definition is_string (v : option json) (s : string) : bool :=
  match v with
  | Some (JString s') => bool_decide (s' = s)
  | _ => false
  end.

Record input_state := InputState {
  mouse_dx : number;
  mouse_dy : number;
  isMouseDown : bool
}.

Definition inputState_init : input_state :=
  InputState (num 0) (num 0) false.

Record mouse_event := MouseEvent {
  movementX : number;
  movementY : number
}.

(** [updatePosition], the same in both clients. *)
Definition updatePosition (e : mouse_event) (i : input_state) : input_state :=
  InputState (add (mouse_dx i) (movementX e)) (sub (mouse_dy i) (movementY e))
             (isMouseDown i).

Definition set_isMouseDown (b : bool) (i : input_state) : input_state :=
  InputState (mouse_dx i) (mouse_dy i) b.

Definition zero_deltas (i : input_state) : input_state :=
  InputState (num 0) (num 0) (isMouseDown i).

Definition WORLD_WIDTH : number := num 16.
Definition WORLD_HEIGHT : number := num 9.
Definition WORLD_ASPECT_RATIO : number := div WORLD_WIDTH WORLD_HEIGHT.

(** The scale [handleResize] computes from the canvas size. *)
Definition resize_scale (width height : number) : number :=
  if gt (div width height) WORLD_ASPECT_RATIO
  then div height WORLD_HEIGHT
  else div width WORLD_WIDTH.

(** The canvas and what [draw] does to it; [false] in the result: [draw]
    threw (a snapshot without the expected arrays). *)
Context {canvas : Type}.
Variable draw : json -> number -> option json -> canvas -> canvas * bool.

(** ** initMultiplayerGame *)

Inductive ready_state := CONNECTING | OPEN | CLOSING | CLOSED.

Record mp_state := MpState {
  readyState : ready_state;
  localPlayerId : option json;
  mp_scale : number;
  mp_input : input_state;
  mousemove_listener : bool;
  button_listeners : bool;
  input_timer : bool;
  outbox : list string;
  mp_console : list string;
  mp_canvas : canvas
}.

Definition mp_with_input (i : input_state) (s : mp_state) : mp_state :=
  MpState (readyState s) (localPlayerId s) (mp_scale s) i
          (mousemove_listener s) (button_listeners s) (input_timer s)
          (outbox s) (mp_console s) (mp_canvas s).

(** socket.onopen *)
Definition onopen (s : mp_state) : mp_state :=
  MpState OPEN (localPlayerId s) (mp_scale s) (mp_input s)
          true true true
          (outbox s) (mp_console s ++ ["[open] Connection established"])
          (mp_canvas s).

Definition mp_with_id (id : option json) (s : mp_state) : mp_state :=
  MpState (readyState s) id (mp_scale s) (mp_input s)
          (mousemove_listener s) (button_listeners s) (input_timer s)
          (outbox s) (mp_console s) (mp_canvas s).

Definition mp_with_canvas (c : canvas) (s : mp_state) : mp_state :=
  MpState (readyState s) (localPlayerId s) (mp_scale s) (mp_input s)
          (mousemove_listener s) (button_listeners s) (input_timer s)
          (outbox s) (mp_console s) c.

Definition mp_console_error (line : string) (s : mp_state) : mp_state :=
  MpState (readyState s) (localPlayerId s) (mp_scale s) (mp_input s)
          (mousemove_listener s) (button_listeners s) (input_timer s)
          (outbox s) (mp_console s ++ [line]) (mp_canvas s).

(** The [try] block of socket.onmessage: the state when the block is left,
    and whether it was left normally ([false]: by an exception). *)
Definition onmessage_try (data : string) (s : mp_state) : mp_state * bool :=
  match JSON_parse data with
  | None => (s, false)
  | Some message =>
      match get_property message "type" with
      | None => (s, false)
      | Some type =>
          if is_string type "Welcome" then
            match get_property message "id" with
            | None => (s, false)
            | Some id => (mp_with_id id s, true)
            end
          else if is_string type "GameState" then
            let '(c, ok) :=
              draw message (mp_scale s) (localPlayerId s) (mp_canvas s) in
            (mp_with_canvas c s, ok)
          else (s, true)
      end
  end.

(** socket.onmessage *)
Definition onmessage (data : string) (s : mp_state) : mp_state :=
  let '(s', ok) := onmessage_try data s in
  if ok then s' else mp_console_error "Error parsing message:" s'.

(** socket.onclose *)
Definition onclose (s : mp_state) : mp_state :=
  MpState CLOSED (localPlayerId s) (mp_scale s) (mp_input s)
          false (button_listeners s) (input_timer s)
          (outbox s) (mp_console s) (mp_canvas s).

Definition input_message (i : input_state) (scale : number) : json :=
  let world_dx := div (mouse_dx i) scale in
  let world_dy := div (mouse_dy i) scale in
  JObject [ ("mouse_dx", JNumber world_dx);
            ("mouse_dy", JNumber world_dy);
            ("is_mouse_down", JBool (isMouseDown i)) ].

Definition sendInput (s : mp_state) : mp_state :=
  match readyState s with
  | OPEN =>
      MpState (readyState s) (localPlayerId s) (mp_scale s)
              (zero_deltas (mp_input s))
              (mousemove_listener s) (button_listeners s) (input_timer s)
              (outbox s ++ [JSON_stringify (input_message (mp_input s) (mp_scale s))])
              (mp_console s) (mp_canvas s)
  | _ => s
  end.

Definition mp_handleResize (width height : number) (s : mp_state) : mp_state :=
  MpState (readyState s) (localPlayerId s) (resize_scale width height)
          (mp_input s)
          (mousemove_listener s) (button_listeners s) (input_timer s)
          (outbox s) (mp_console s) (mp_canvas s).

(** What the browser delivers to the multiplayer client. *)
Inductive mp_event :=
| SocketOpen
| SocketMessage (data : string)
| SocketClosing
| SocketClose
| MouseMove (e : mouse_event)
| MouseDown
| MouseUp
| Interval
| Resize (width height : number).

Definition mp_set_readyState (r : ready_state) (s : mp_state) : mp_state :=
  MpState r (localPlayerId s) (mp_scale s) (mp_input s)
          (mousemove_listener s) (button_listeners s) (input_timer s)
          (outbox s) (mp_console s) (mp_canvas s).

(** Each event runs the handlers registered for it at that moment. *)
Definition mp_step (s : mp_state) (ev : mp_event) : mp_state :=
  match ev with
  | SocketOpen => onopen s
  | SocketMessage data => onmessage data s
  | SocketClosing => mp_set_readyState CLOSING s
  | SocketClose => onclose s
  | MouseMove e =>
      if mousemove_listener s
      then mp_with_input (updatePosition e (mp_input s)) s else s
  | MouseDown =>
      if button_listeners s
      then mp_with_input (set_isMouseDown true (mp_input s)) s else s
  | MouseUp =>
      if button_listeners s
      then mp_with_input (set_isMouseDown false (mp_input s)) s else s
  | Interval => if input_timer s then sendInput s else s
  | Resize width height => mp_handleResize width height s
  end.

(** The state when initMultiplayerGame returns, the canvas being
    [width] by [height]. *)
Definition mp_init (width height : number) (c : canvas) : mp_state :=
  MpState CONNECTING (Some JNull) (resize_scale width height) inputState_init
          false false false [] [] c.

Definition mp_run (s : mp_state) (evs : list mp_event) : mp_state :=
  foldl mp_step s evs.

(** ** initLocalGame *)

(** The WASM game object and its two methods. *)
Context {game : Type}.
Variable game_tick : number -> number -> bool -> game -> game.
Variable get_game_state : game -> string.
Variable draw_local : json -> number -> canvas -> canvas * bool.

(** [ticks] records the arguments of every [game.tick] call;
    [frame_requested] tells whether a requestAnimationFrame callback is
    pending. *)
Record local_state := LocalState {
  lc_game : game;
  lc_scale : number;
  lc_input : input_state;
  lc_mousemove_listener : bool;
  lc_canvas : canvas;
  frame_requested : bool;
  ticks : list (number * number * bool)
}.

Definition lc_with_input (i : input_state) (s : local_state) : local_state :=
  LocalState (lc_game s) (lc_scale s) i (lc_mousemove_listener s)
             (lc_canvas s) (frame_requested s) (ticks s).

(** The pointerlockchange handler; [locked] is
    [document.pointerLockElement === canvas]. *)
Definition onpointerlockchange (locked : bool) (s : local_state)
    : local_state :=
  LocalState (lc_game s) (lc_scale s) (lc_input s) locked
             (lc_canvas s) (frame_requested s) (ticks s).

Definition lc_handleResize (width height : number) (s : local_state)
    : local_state :=
  LocalState (lc_game s) (resize_scale width height) (lc_input s)
             (lc_mousemove_listener s) (lc_canvas s) (frame_requested s)
             (ticks s).

(** An exception in JSON.parse or in [draw] leaves gameLoop before it
    requests the next frame. *)
Definition gameLoop (s : local_state) : local_state :=
  let world_dx := div (mouse_dx (lc_input s)) (lc_scale s) in
  let world_dy := div (mouse_dy (lc_input s)) (lc_scale s) in
  let i := zero_deltas (lc_input s) in
  let g := game_tick world_dx world_dy (isMouseDown i) (lc_game s) in
  let t := ticks s ++ [(world_dx, world_dy, isMouseDown i)] in
  match JSON_parse (get_game_state g) with
  | None =>
      LocalState g (lc_scale s) i (lc_mousemove_listener s) (lc_canvas s)
                 false t
  | Some gameState =>
      let '(c, ok) := draw_local gameState (lc_scale s) (lc_canvas s) in
      LocalState g (lc_scale s) i (lc_mousemove_listener s) c ok t
  end.

Inductive local_event :=
| LAnimationFrame
| LPointerLockChange (locked : bool)
| LMouseMove (e : mouse_event)
| LMouseDown
| LMouseUp
| LResize (width height : number).

Definition local_step (s : local_state) (ev : local_event) : local_state :=
  match ev with
  | LAnimationFrame => if frame_requested s then gameLoop s else s
  | LPointerLockChange locked => onpointerlockchange locked s
  | LMouseMove e =>
      if lc_mousemove_listener s
      then lc_with_input (updatePosition e (lc_input s)) s else s
  | LMouseDown => lc_with_input (set_isMouseDown true (lc_input s)) s
  | LMouseUp => lc_with_input (set_isMouseDown false (lc_input s)) s
  | LResize width height => lc_handleResize width height s
  end.

(** The state when initLocalGame returns. *)
Definition local_init (g : game) (width height : number) (c : canvas)
    : local_state :=
  LocalState g (resize_scale width height) inputState_init false c true [].

Definition local_run (s : local_state) (evs : list local_event)
    : local_state :=
  foldl local_step s evs.

(** ** Traces

    What reaches the input buffer while a list of events is processed:
    the mouse moves handed to [updatePosition], the values written by the
    mousedown and mouseup handlers, and whether the buffer is consumed on
    the way. *)

Definition mp_sends (s : mp_state) (ev : mp_event) : bool :=
  match ev, readyState s with
  | Interval, OPEN => input_timer s
  | _, _ => false
  end.

Fixpoint mp_quiet (s : mp_state) (evs : list mp_event) : bool :=
  match evs with
  | [] => true
  | ev :: rest => negb (mp_sends s ev) && mp_quiet (mp_step s ev) rest
  end.

Fixpoint mp_moves (s : mp_state) (evs : list mp_event) : list mouse_event :=
  match evs with
  | [] => []
  | ev :: rest =>
      match ev with
      | MouseMove e => if mousemove_listener s then [e] else []
      | _ => []
      end ++ mp_moves (mp_step s ev) rest
  end.

Fixpoint mp_buttons (s : mp_state) (evs : list mp_event) : list bool :=
  match evs with
  | [] => []
  | ev :: rest =>
      match ev with
      | MouseDown => if button_listeners s then [true] else []
      | MouseUp => if button_listeners s then [false] else []
      | _ => []
      end ++ mp_buttons (mp_step s ev) rest
  end.

Definition lc_ticks (s : local_state) (ev : local_event) : bool :=
  match ev with
  | LAnimationFrame => frame_requested s
  | _ => false
  end.

Fixpoint lc_quiet (s : local_state) (evs : list local_event) : bool :=
  match evs with
  | [] => true
  | ev :: rest => negb (lc_ticks s ev) && lc_quiet (local_step s ev) rest
  end.

Fixpoint lc_moves (s : local_state) (evs : list local_event)
    : list mouse_event :=
  match evs with
  | [] => []
  | ev :: rest =>
      match ev with
      | LMouseMove e => if lc_mousemove_listener s then [e] else []
      | _ => []
      end ++ lc_moves (local_step s ev) rest
  end.

Definition lc_buttons (evs : list local_event) : list bool :=
  omap (fun ev => match ev with
                  | LMouseDown => Some true
                  | LMouseUp => Some false
                  | _ => None
                  end) evs.

(** [0 + x1 + x2 + ...], added in arrival order. *)
Definition sum_from_zero (deltas : list number) : number :=
  foldl add (num 0) deltas.

(** ** Further notions used to describe runs *)

Definition is_SocketOpen (ev : mp_event) : bool :=
  match ev with SocketOpen => true | _ => false end.

(** How many of the events make [sendInput] send. *)
Fixpoint mp_send_count (s : mp_state) (evs : list mp_event) : nat :=
  match evs with
  | [] => 0
  | ev :: rest =>
      (if mp_sends s ev then 1 else 0) + mp_send_count (mp_step s ev) rest
  end.

(** The scales computed by the resize events, in order. *)
Definition mp_resizes (evs : list mp_event) : list number :=
  omap (fun ev => match ev with
                  | Resize width height => Some (resize_scale width height)
                  | _ => None
                  end) evs.

(** The id a Welcome message carries ([Some None]: a Welcome without
    [id], which stores [undefined]). *)
Definition welcome_id (ev : mp_event) : option (option json) :=
  match ev with
  | SocketMessage data =>
      match JSON_parse data with
      | Some (JObject fields) =>
          if is_string (own_property "type" fields) "Welcome"
          then Some (own_property "id" fields) else None
      | _ => None
      end
  | _ => None
  end.

Definition is_lock (ev : local_event) : bool :=
  match ev with LPointerLockChange true => true | _ => false end.

(** How many of the events run [gameLoop]. *)
Fixpoint lc_frame_count (s : local_state) (evs : list local_event) : nat :=
  match evs with
  | [] => 0
  | ev :: rest =>
      (if lc_ticks s ev then 1 else 0) + lc_frame_count (local_step s ev) rest
  end.

Definition apply_tick (g : game) (t : number * number * bool) : game :=
  game_tick t.1.1 t.1.2 t.2 g.

End Client.

(** ** A concrete browser, for evaluating the model *)

Definition ex_JSON_parse (data : string) : option (@json Z) :=
  if decide (data = "{}") then Some (JObject [])
  else if decide (data = "null") then Some JNull
  else None.

Definition ex_JSON_stringify (j : @json Z) : string :=
  match j with
  | JObject fields => String.concat "," (fields.*1)
  | _ => ""
  end.

Definition ex_draw (message : @json Z) (scale : Z) (id : option (@json Z))
    (c : nat) : nat * bool := (S c, true).

Definition ex_draw_local (gameState : @json Z) (scale : Z) (c : nat)
    : nat * bool := (S c, true).

Definition ex_game_tick (dx dy : Z) (down : bool) (g : list (Z * Z * bool))
    : list (Z * Z * bool) := g ++ [(dx, dy, down)].

Definition ex_get_game_state (g : list (Z * Z * bool)) : string := "{}".

Definition ex_mp_step :=
  mp_step (fun z => z) Z.add Z.sub Z.div Z.gtb ex_JSON_parse
          ex_JSON_stringify ex_draw.

Definition ex_mp_init : @mp_state Z nat :=
  mp_init (fun z => z) Z.div Z.gtb 1600%Z 900%Z 0.

Definition ex_local_step :=
  local_step (fun z => z) Z.add Z.sub Z.div Z.gtb ex_JSON_parse
             ex_game_tick ex_get_game_state ex_draw_local.

Definition ex_local_init : @local_state Z nat (list (Z * Z * bool)) :=
  local_init (fun z => z) Z.div Z.gtb [] 1600%Z 900%Z 0.

Definition ex_mp_events : list (@mp_event Z) :=
  [ SocketOpen; MouseMove (MouseEvent 300%Z (-200)%Z); MouseDown;
    SocketMessage "not json"; MouseMove (MouseEvent 100%Z 50%Z) ].

Definition ex_local_events : list (@local_event Z) :=
  [ LPointerLockChange true; LMouseMove (MouseEvent 300%Z (-200)%Z);
    LMouseDown; LMouseUp; LMouseDown; LMouseMove (MouseEvent 100%Z 50%Z) ].

Definition ex_mp_run :=
  mp_run (fun z => z) Z.add Z.sub Z.div Z.gtb ex_JSON_parse
         ex_JSON_stringify ex_draw.

Definition ex_local_run :=
  local_run (fun z => z) Z.add Z.sub Z.div Z.gtb ex_JSON_parse
            ex_game_tick ex_get_game_state ex_draw_local.

(** Mouse and timer events with no [SocketOpen] and no pointer lock. *)
Definition ex_mp_idle_events : list (@mp_event Z) :=
  [ MouseMove (MouseEvent 300%Z (-200)%Z); MouseDown; Interval;
    SocketMessage "{}" ].

Definition ex_local_unlocked_events : list (@local_event Z) :=
  [ LMouseMove (MouseEvent 300%Z (-200)%Z); LAnimationFrame;
    LPointerLockChange false; LMouseMove (MouseEvent 1%Z 1%Z) ].

(** A local game whose loop has stopped. *)
Definition ex_halted : @local_state Z nat (list (Z * Z * bool)) :=
  LocalState [] 100%Z (InputState 0%Z 0%Z false) true 0 false [].

(** ** Rendering: [draw] and [drawCursor]

    The two [draw] functions on a snapshot whose fields have the types the
    code expects, as the list of canvas calls they make.  [exec] keeps
    the part of the 2D context these calls change: the drawing state with
    its save stack, and a record of what was painted. *)

Section Rendering.

Context {number : Type}.
Variable num : Z -> number.
Variable sub mul div : number -> number -> number.
Variable opp : number -> number.
Variable eqb : number -> number -> bool.   (* [===] on two numbers *)
Variable lit : string -> number.           (* a decimal literal *)
Variable Math_PI : number.

Record boundary := Boundary {
  b_x : number; b_y : number; b_half_width : number; b_half_height : number
}.

Record object := Object {
  o_x : number; o_y : number; o_rotation : number; o_shape : string;
  o_half_width : number; o_half_height : number; o_radius : number;
  o_user_data : number
}.

Record player := Player {
  p_id : @json number; p_x : number; p_y : number;
  p_is_grabbing : bool; p_is_over_grabbable : bool
}.

Record game_state := GameState {
  boundaries : list boundary;
  objects : list object;
  players : list player
}.

Inductive cursor_image := CursorDefault | CursorGrabbing.

(** The load state of an [Image]. *)
Record image := Image {
  complete : bool; naturalWidth : number; naturalHeight : number
}.

Inductive canvas_call :=
| SetFillStyle (style : string)
| SetGlobalAlpha (alpha : number)
| FillRect (x y w h : number)
| Save
| Restore
| Translate (x y : number)
| Scale (x y : number)
| Rotate (angle : number)
| BeginPath
| Arc (x y radius startAngle endAngle : number)
| Fill
| DrawImage (img : cursor_image) (x y w h : number).

(** [a === b] for a value read from a parsed message and [localPlayerId];
    arrays and objects from different messages are different objects. *)
Definition strict_equal (a b : option (@json number)) : bool :=
  match a, b with
  | None, None => true
  | Some JNull, Some JNull => true
  | Some (JBool x), Some (JBool y) => bool_decide (x = y)
  | Some (JNumber x), Some (JNumber y) => eqb x y
  | Some (JString x), Some (JString y) => bool_decide (x = y)
  | _, _ => false
  end.

Definition CURSOR_DRAW_SIZE : number := lit "0.35".

Definition cursor_choice (isGrabbing isOverGrabbable : bool) : cursor_image :=
  if isGrabbing || isOverGrabbable then CursorGrabbing else CursorDefault.

Definition image_ready (img : image) : bool :=
  complete img && negb (eqb (naturalWidth img) (num 0)).

(** drawCursor of initMultiplayerGame. *)
Definition mp_drawCursor (cursorDefault cursorGrabbing : image)
    (x y : number) (isGrabbing isOverGrabbable isLocalPlayer : bool)
    : list canvas_call :=
  let choice := cursor_choice isGrabbing isOverGrabbable in
  let cursorImg :=
    match choice with
    | CursorGrabbing => cursorGrabbing
    | CursorDefault => cursorDefault
    end in
  if image_ready cursorImg then
    let cursorAspect := div (naturalWidth cursorImg) (naturalHeight cursorImg) in
    let cursorHeight := div CURSOR_DRAW_SIZE cursorAspect in
    [Save; Translate x y; Scale (num 1) (opp (num 1))] ++
    (if isLocalPlayer then [] else [SetGlobalAlpha (lit "0.5")]) ++
    [DrawImage choice (num 0) (num 0) CURSOR_DRAW_SIZE cursorHeight; Restore]
  else [].

(** drawCursor of initLocalGame: no [isLocalPlayer], no transparency. *)
Definition lc_drawCursor (cursorDefault cursorGrabbing : image)
    (x y : number) (isGrabbing isOverGrabbable : bool) : list canvas_call :=
  let choice := cursor_choice isGrabbing isOverGrabbable in
  let cursorImg :=
    match choice with
    | CursorGrabbing => cursorGrabbing
    | CursorDefault => cursorDefault
    end in
  if image_ready cursorImg then
    let cursorAspect := div (naturalWidth cursorImg) (naturalHeight cursorImg) in
    let cursorHeight := div CURSOR_DRAW_SIZE cursorAspect in
    [Save; Translate x y; Scale (num 1) (opp (num 1));
     DrawImage choice (num 0) (num 0) CURSOR_DRAW_SIZE cursorHeight; Restore]
  else [].

Definition draw_boundary (b : boundary) : list canvas_call :=
  [FillRect (sub (b_x b) (b_half_width b)) (sub (b_y b) (b_half_height b))
            (mul (b_half_width b) (num 2)) (mul (b_half_height b) (num 2))].

Definition object_style (obj : object) : string :=
  if eqb (o_user_data obj) (num 1) then "#3498db"
  else if eqb (o_user_data obj) (num 2) then "#e74c3c"
  else "white".

Definition object_shape (obj : object) : list canvas_call :=
  if decide (o_shape obj = "Square") then
    [FillRect (opp (o_half_width obj)) (opp (o_half_height obj))
              (mul (o_half_width obj) (num 2)) (mul (o_half_height obj) (num 2))]
  else if decide (o_shape obj = "Circle") then
    [BeginPath;
     Arc (num 0) (num 0) (o_radius obj) (num 0) (mul Math_PI (num 2));
     Fill]
  else [].

Definition draw_object (obj : object) : list canvas_call :=
  [Save; Translate (o_x obj) (o_y obj); Rotate (o_rotation obj);
   SetFillStyle (object_style obj)] ++ object_shape obj ++ [Restore].

(** What both [draw] functions do before they come to the players. *)
Definition draw_scene (gameState : game_state) (scale width height : number)
    : list canvas_call :=
  [SetFillStyle "#222"; FillRect (num 0) (num 0) width height; Save;
   Translate (div width (num 2)) (div height (num 2));
   Scale scale (opp scale); SetFillStyle "white"] ++
  concat (map draw_boundary (boundaries gameState)) ++
  concat (map draw_object (objects gameState)).

(** draw of initMultiplayerGame. *)
Definition mp_draw (cursorDefault cursorGrabbing : image)
    (localPlayerId : option (@json number)) (gameState : game_state)
    (scale width height : number) : list canvas_call :=
  draw_scene gameState scale width height ++
  concat (map (fun p =>
                 let isLocalPlayer :=
                   strict_equal (Some (p_id p)) localPlayerId in
                 mp_drawCursor cursorDefault cursorGrabbing (p_x p) (p_y p)
                   (p_is_grabbing p) (p_is_over_grabbable p) isLocalPlayer)
              (players gameState)) ++
  [Restore].

(** draw of initLocalGame. *)
Definition lc_draw (cursorDefault cursorGrabbing : image)
    (gameState : game_state) (scale width height : number)
    : list canvas_call :=
  draw_scene gameState scale width height ++
  concat (map (fun p =>
                 lc_drawCursor cursorDefault cursorGrabbing (p_x p) (p_y p)
                   (p_is_grabbing p) (p_is_over_grabbable p))
              (players gameState)) ++
  [Restore].

(** *** The 2D context *)

Record drawing_state := DrawingState {
  fillStyle : string;
  globalAlpha : number;
  transform : list canvas_call   (* the transformations applied so far *)
}.

(** [fills] records the fill style of every [fillRect] and [fill];
    [images] the image and the alpha of every [drawImage]. *)
Record context2d := Context2d {
  current : drawing_state;
  saved : list drawing_state;
  fills : list string;
  images : list (cursor_image * number)
}.

Definition with_current (d : drawing_state) (c : context2d) : context2d :=
  Context2d d (saved c) (fills c) (images c).

Definition exec (c : context2d) (call : canvas_call) : context2d :=
  match call with
  | SetFillStyle style =>
      with_current (DrawingState style (globalAlpha (current c))
                                 (transform (current c))) c
  | SetGlobalAlpha alpha =>
      with_current (DrawingState (fillStyle (current c)) alpha
                                 (transform (current c))) c
  | Translate _ _ | Scale _ _ | Rotate _ =>
      with_current (DrawingState (fillStyle (current c))
                                 (globalAlpha (current c))
                                 (transform (current c) ++ [call])) c
  | Save => Context2d (current c) (current c :: saved c) (fills c) (images c)
  | Restore =>
      match saved c with
      | [] => c
      | d :: rest => Context2d d rest (fills c) (images c)
      end
  | FillRect _ _ _ _ | Fill =>
      Context2d (current c) (saved c)
                (fills c ++ [fillStyle (current c)]) (images c)
  | BeginPath | Arc _ _ _ _ _ => c
  | DrawImage img _ _ _ _ =>
      Context2d (current c) (saved c) (fills c)
                (images c ++ [(img, globalAlpha (current c))])
  end.

Definition exec_all (c : context2d) (calls : list canvas_call) : context2d :=
  foldl exec c calls.

(** The fill an object leaves, if its shape is one the code draws. *)
Definition object_fill (obj : object) : option string :=
  if decide (o_shape obj = "Square") then Some (object_style obj)
  else if decide (o_shape obj = "Circle") then Some (object_style obj)
  else None.

(** The image drawn for a player, if it has loaded. *)
Definition player_image (cursorDefault cursorGrabbing : image) (p : player)
    : option cursor_image :=
  let choice := cursor_choice (p_is_grabbing p) (p_is_over_grabbable p) in
  let cursorImg :=
    match choice with
    | CursorGrabbing => cursorGrabbing
    | CursorDefault => cursorDefault
    end in
  if image_ready cursorImg then Some choice else None.

End Rendering.

End Bootstrap.

(** * Properties of the authoring host *)

Module LuaApiFacts.

Import LuaApi.

Section Facts.

Context {number : Type}.
Variable str2number : string -> option number.
Variable number2str : number -> string.
Variable std_names : list string.
Variable std_call : string -> list (@lua_value number) -> bool.

Local Abbreviation api_run := (LuaApi.api_run str2number number2str).
Local Abbreviation api_create_entity :=
  (LuaApi.api_create_entity str2number number2str).
Local Abbreviation copy_props := (LuaApi.copy_props str2number).
Local Abbreviation copy_field := (LuaApi.copy_field str2number).
Local Abbreviation push_all := (LuaApi.push_all str2number).
Local Abbreviation call := (LuaApi.call str2number number2str std_call).
Local Abbreviation luaL_dostring :=
  (LuaApi.luaL_dostring str2number number2str std_call).
Local Abbreviation script_state := (LuaApi.script_state (number:=number) std_names).
Local Abbreviation runLuaScript :=
  (LuaApi.runLuaScript str2number number2str std_names std_call).
Local Abbreviation copy_table := (LuaApi.copy_table str2number number2str).
Local Abbreviation lua_next_loop :=
  (LuaApi.lua_next_loop str2number number2str).

Lemma same_binding_refl (m : @module_state number) : same_binding m m.
Proof. by repeat split. Qed.

Lemma same_binding_trans (m1 m2 m3 : @module_state number) :
  same_binding m1 m2 → same_binding m2 m3 → same_binding m1 m3.
Proof.
  intros (Hb & Hl & Hc & Hh) (Hb' & Hl' & Hc' & Hh').
  repeat split; try congruence.
  intros ref Hne. rewrite Hh' by congruence. by apply Hh.
Qed.

Lemma update_mapData_same_binding f (m : @module_state number) :
  same_binding m (update_mapData f m).
Proof.
  repeat split; simpl; auto.
  - by rewrite length_alter.
  - intros ref Hne. by rewrite list_lookup_alter_ne.
Qed.

Lemma current_doc_update f (m : @module_state number) :
  current_doc (update_mapData f m) = f <$> current_doc m.
Proof. unfold current_doc, read_doc. simpl. by rewrite list_lookup_alter_eq. Qed.

Lemma api_run_same_binding f args L m L' m' :
  api_run f args L m = Some (L', m') → same_binding m m'.
Proof.
  destruct f; simpl;
    unfold api_set_gravity, api_set_map_dimensions, LuaApi.api_create_entity,
           api_on_mouse_click; intros H.
  - simplify_option_eq. apply update_mapData_same_binding.
  - repeat case_match; simplify_eq. apply update_mapData_same_binding.
  - repeat case_match; simplify_eq. by repeat split.
  - simplify_option_eq. apply update_mapData_same_binding.
Qed.

Lemma call_same_binding fn args L m L' m' :
  call fn args L m = Some (L', m') → same_binding m m'.
Proof.
  unfold LuaApi.call. intros H. repeat case_match; simplify_eq.
  - apply same_binding_refl.
  - by eapply api_run_same_binding.
Qed.

Lemma luaL_dostring_same_binding script L m :
  same_binding m (luaL_dostring script L m).2.
Proof.
  revert L m. induction script as [|[protected fn args|] rest IH];
    intros L m; simpl; try apply same_binding_refl.
  destruct (call fn args L m) as [[L' m']|] eqn:Hcall.
  - eapply same_binding_trans; [by eapply call_same_binding|apply IH].
  - destruct protected; [apply IH|apply same_binding_refl].
Qed.

(** ** The globals of the prepared Lua state *)

Lemma luaL_openlibs_registry (L : @lua_State number) :
  registry (luaL_openlibs std_names L) = registry L.
Proof.
  unfold luaL_openlibs. revert L.
  induction std_names as [|name names IH]; intros L; simpl; [done|].
  by rewrite IH.
Qed.

Lemma luaL_openlibs_lookup (L : @lua_State number) key :
  globals (luaL_openlibs std_names L) !! key =
  if decide (key ∈ std_names) then Some GStd else globals L !! key.
Proof.
  unfold luaL_openlibs. revert L.
  induction std_names as [|name names IH]; intros L; cbn [foldl].
  - case_decide as Hin; [by apply not_elem_of_nil in Hin|done].
  - rewrite IH. cbn [lua_setglobal globals].
    destruct (decide (name = key)) as [->|Hne].
    + rewrite lookup_insert_eq.
      destruct (decide (key ∈ names)), (decide (key ∈ key :: names));
        try done; exfalso; set_solver.
    + rewrite lookup_insert_ne by done.
      destruct (decide (key ∈ names)), (decide (key ∈ name :: names));
        try done; exfalso; set_solver.
Qed.

Lemma script_state_registry : registry script_state = [LOther; LOther].
Proof.
  unfold LuaApi.script_state, register_globals. simpl.
  by rewrite luaL_openlibs_registry.
Qed.

Lemma script_state_host key f :
  assoc key cursorArenaLib = Some f →
  globals script_state !! key = Some (GHost f).
Proof.
  unfold LuaApi.script_state, register_globals, cursorArenaLib. simpl.
  intros H. repeat case_decide; simplify_eq;
    repeat (rewrite lookup_insert_ne by done); by rewrite lookup_insert_eq.
Qed.

Lemma script_state_lib :
  globals script_state !! "cursor_arena" = Some (GLib cursorArenaLib).
Proof.
  unfold LuaApi.script_state, register_globals. simpl.
  repeat (rewrite lookup_insert_ne by done). by rewrite lookup_insert_eq.
Qed.

Lemma script_state_unregistered key :
  assoc key cursorArenaLib = None → key ≠ "cursor_arena" →
  globals script_state !! key =
  if decide (key ∈ std_names) then Some GStd else None.
Proof.
  unfold LuaApi.script_state, register_globals, cursorArenaLib. simpl.
  intros H Hne. repeat case_decide; simplify_eq;
    repeat (rewrite lookup_insert_ne by done);
    rewrite luaL_openlibs_lookup; by case_decide.
Qed.

(** ** A run is determined by the script and the current document *)

Lemma api_run_current_doc f args L (m m' : @module_state number) :
  current_doc m = current_doc m' →
  match api_run f args L m, api_run f args L m' with
  | Some (L1, m1), Some (L2, m2) => L1 = L2 ∧ current_doc m1 = current_doc m2
  | None, None => True
  | _, _ => False
  end.
Proof.
  intros Hdoc.
  destruct f; simpl;
    unfold api_set_gravity, api_set_map_dimensions, LuaApi.api_create_entity,
           api_on_mouse_click.
  - destruct (luaL_checknumber str2number args 1); simpl; [|done].
    destruct (luaL_checknumber str2number args 2); simpl; [|done].
    by rewrite !current_doc_update, Hdoc.
  - destruct (args !! 0) as [[| | | |entries| |]|]; try done.
    destruct (copy_table entries); try done.
    by rewrite !current_doc_update, Hdoc.
  - destruct (args !! 0) as [[]|]; try done.
    destruct (last args) as [top|]; [|done].
    by destruct (luaL_ref top L).
  - destruct (luaL_checknumber str2number args 1); simpl; [|done].
    destruct (luaL_checknumber str2number args 2); simpl; [|done].
    by rewrite !current_doc_update, Hdoc.
Qed.

Lemma call_current_doc fn args L (m m' : @module_state number) :
  current_doc m = current_doc m' →
  match call fn args L m, call fn args L m' with
  | Some (L1, m1), Some (L2, m2) => L1 = L2 ∧ current_doc m1 = current_doc m2
  | None, None => True
  | _, _ => False
  end.
Proof.
  intros Hdoc. unfold LuaApi.call.
  destruct (resolve fn L) as [[name|f]|]; [|by apply api_run_current_doc|done].
  by destruct (std_call name args).
Qed.

Lemma luaL_dostring_current_doc script L (m m' : @module_state number) :
  current_doc m = current_doc m' →
  (luaL_dostring script L m).1 = (luaL_dostring script L m').1 ∧
  current_doc (luaL_dostring script L m).2 =
  current_doc (luaL_dostring script L m').2.
Proof.
  revert L m m'. induction script as [|[protected fn args|] rest IH];
    intros L m m' Hdoc; simpl; [done| |done].
  pose proof (call_current_doc fn args L m m' Hdoc) as Hcall.
  destruct (call fn args L m) as [[L1 m1]|], (call fn args L m') as [[L2 m2]|];
    try done.
  - destruct Hcall as [-> Hdoc']. by apply IH.
  - destruct protected; [by apply IH|done].
Qed.

Lemma current_doc_reset (m : @module_state number) :
  current_doc (reset_mapData m) = Some empty_doc.
Proof.
  unfold current_doc, read_doc, reset_mapData. simpl.
  by rewrite lookup_app_r, Nat.sub_diag.
Qed.

Lemma returned_doc_runLuaScript script (m : @module_state number) :
  returned_doc (runLuaScript script m) =
  let r := luaL_dostring script script_state (reset_mapData m) in
  if r.1.1 then current_doc r.2 else None.
Proof.
  unfold LuaApi.runLuaScript, returned_doc.
  destruct (luaL_dostring script script_state (reset_mapData m))
    as [[ok L] m1]. by destruct ok.
Qed.

(** ** runLuaScript *)

(** C1: when the script fails, runLuaScript returns null and every
    document that existed before the call is unchanged; a reference is
    returned only when luaL_dostring reported LUA_OK. *)
Theorem runLuaScript_fails_closed script (m : @module_state number) :
  let ok := (luaL_dostring script script_state (reset_mapData m)).1.1 in
  (ok = false →
   (runLuaScript script m).1 = None ∧
   ∀ ref doc, read_doc m ref = Some doc →
              read_doc (runLuaScript script m).2 ref = Some doc) ∧
  (∀ ref, (runLuaScript script m).1 = Some ref → ok = true).
Proof.
  intros ok. subst ok. unfold LuaApi.runLuaScript.
  pose proof (luaL_dostring_same_binding script script_state (reset_mapData m))
    as (Hb & Hl & Hc & Hh).
  destruct (luaL_dostring script script_state (reset_mapData m))
    as [[ok L] m1]; simpl in *.
  split.
  - intros ->. split; [done|]. intros ref doc Hdoc.
    unfold read_doc in *. simpl.
    assert (ref < length (heap m)) by (by eapply lookup_lt_Some).
    rewrite Hh by lia. by rewrite lookup_app_l.
  - intros ref. by destruct ok.
Qed.

(** C10: runLuaScript resets the document before it runs the script.
    After any earlier run, the document it returns for a script is the one
    the script's calls build from the empty document, if the script
    completes, and null otherwise: the same as in a freshly loaded module,
    with nothing of the earlier run in it.  In particular the empty script
    returns the empty document. *)
Theorem runLuaScript_sequential_independent s1 s2 (m : @module_state number) :
  let m1 := (runLuaScript s1 m).2 in
  let fresh := luaL_dostring s2 script_state module_init in
  returned_doc (runLuaScript s2 m1) =
    (if fresh.1.1 then current_doc fresh.2 else None) ∧
  returned_doc (runLuaScript s2 m1) =
    returned_doc (runLuaScript s2 module_init) ∧
  returned_doc (runLuaScript [] m1) = Some empty_doc.
Proof.
  intros m1 fresh. subst fresh.
  assert (∀ m0 : @module_state number,
            returned_doc (runLuaScript s2 m0) =
            if (luaL_dostring s2 script_state module_init).1.1
            then current_doc (luaL_dostring s2 script_state module_init).2
            else None) as Hrun.
  { intros m0. rewrite returned_doc_runLuaScript. simpl.
    destruct (luaL_dostring_current_doc s2 script_state
                (reset_mapData m0) module_init) as [Hok Hdoc].
    - by rewrite current_doc_reset.
    - by rewrite Hok, Hdoc. }
  split; [apply Hrun|]. split; [by rewrite !Hrun|].
  rewrite returned_doc_runLuaScript. simpl. apply current_doc_reset.
Qed.

(** ** create_entity *)

Lemma is_Some_js_set key k v (props : gmap string (@js_value number)) :
  is_Some (js_set k v props !! key) ↔
  is_Some (props !! key) ∨ (key = k ∧ key ≠ "__proto__").
Proof using Type.
  clear str2number number2str std_call. unfold js_set. destruct (decide (k = "__proto__")) as [->|Hk].
  - naive_solver.
  - destruct (decide (k = key)) as [->|Hne].
    + rewrite lookup_insert_eq. naive_solver.
    + rewrite lookup_insert_ne by done. naive_solver.
Qed.

Lemma is_Some_copy_field key k v (props : gmap string (@js_value number)) :
  is_Some (copy_field props (k, v) !! key) ↔
  is_Some (props !! key) ∨
  (key = k ∧ key ≠ "__proto__" ∧ is_primitive v = true).
Proof using Type.
  clear number2str std_call. unfold LuaApi.copy_field, lua_isnumber.
  destruct v as [|b|n|str| | |]; cbn;
    try (destruct (str2number str); cbn);
    rewrite ?is_Some_js_set; naive_solver.
Qed.

Lemma is_Some_foldl_copy_field key fields
    (props : gmap string (@js_value number)) :
  is_Some (foldl copy_field props fields !! key) ↔
  is_Some (props !! key) ∨
  (key ≠ "__proto__" ∧ ∃ v, (key, v) ∈ fields ∧ is_primitive v = true).
Proof using Type.
  revert props. induction fields as [|[k v] fields IH]; intros props;
    cbn [foldl].
  - split; [auto|]. intros [?|(_ & v & Hin & _)]; [done|].
    by apply not_elem_of_nil in Hin.
  - rewrite IH, is_Some_copy_field. split.
    + intros [[?|(-> & ? & ?)]|(? & v' & ? & ?)]; [by left|right..].
      * split; [done|]. exists v. split; [left|done].
      * split; [done|]. exists v'. split; [by right|done].
    + intros [?|(? & v' & Hin & ?)]; [by left; left|].
      apply elem_of_cons in Hin as [[= -> ->]|Hin].
      * left. right. done.
      * right. split; [done|]. by exists v'.
Qed.

(** The traversal of a table of named fields visits every field once, in
    order, and ends. *)
Lemma lua_next_loop_named fields fuel pos
    (props : gmap string (@js_value number)) :
  length fields - pos < fuel →
  lua_next_loop fuel (map (λ kv, (LString kv.1, kv.2)) fields) pos props =
  Copied (foldl copy_field props (drop pos fields)).
Proof.
  revert pos props. induction fuel as [|fuel IH]; intros pos props Hfuel;
    [lia|].
  cbn [LuaApi.lua_next_loop]. rewrite list_lookup_fmap.
  destruct (fields !! pos) as [[k v]|] eqn:Hpos; simpl.
  - rewrite IH.
    + by rewrite (drop_S _ _ _ Hpos).
    + apply lookup_lt_Some in Hpos. lia.
  - apply lookup_ge_None in Hpos. by rewrite drop_ge.
Qed.

(** A traversal that has ended, in either way, ends the same way with
    more fuel. *)
Lemma lua_next_loop_more_fuel entries fuel fuel' pos
    (props : gmap string (@js_value number)) :
  lua_next_loop fuel entries pos props ≠ Endless →
  fuel ≤ fuel' →
  lua_next_loop fuel' entries pos props = lua_next_loop fuel entries pos props.
Proof.
  revert fuel' pos props. induction fuel as [|fuel IH];
    intros fuel' pos props Hend Hle; [done|].
  destruct fuel' as [|fuel']; [lia|].
  cbn [LuaApi.lua_next_loop] in *.
  destruct (entries !! pos) as [[k v]|]; [|done].
  destruct k; try (apply IH; [done|lia]).
  destruct (key_position _ entries); [|done]. apply IH; [done|lia].
Qed.

Lemma copy_table_named fields :
  copy_table (map (λ kv, (LString kv.1, kv.2)) fields) =
  Copied (copy_props fields).
Proof.
  unfold LuaApi.copy_table. rewrite lua_next_loop_named.
  - by rewrite drop_0.
  - rewrite length_map. lia.
Qed.

Lemma api_create_entity_appends fields rest L (m : @module_state number) :
  api_create_entity (named_table fields :: rest) L m =
  Some (L, update_mapData (push_entity (copy_props fields)) m).
Proof.
  unfold LuaApi.api_create_entity, named_table. simpl.
  by rewrite copy_table_named.
Qed.

(** The traversal up to the first number key: when the keys before it are
    no numbers and no entry has the converted key, the loop ends with
    "invalid key to 'next'". *)
Lemma lua_next_loop_number_key pre n v rest fuel pos
    (props : gmap string (@js_value number)) :
  Forall (λ kv, is_number_key kv.1 = false) pre →
  key_position (number2str n) (pre ++ (LNumber n, v) :: rest) = None →
  pos ≤ length pre →
  length pre - pos < fuel →
  lua_next_loop fuel (pre ++ (LNumber n, v) :: rest) pos props = InvalidKey.
Proof.
  intros Hpre Htwin. revert pos props.
  induction fuel as [|fuel IH]; intros pos props Hpos Hfuel; [lia|].
  cbn [LuaApi.lua_next_loop].
  destruct (decide (pos = length pre)) as [->|Hne].
  - rewrite list_lookup_middle by done. by rewrite Htwin.
  - assert (pos < length pre) as Hlt by lia.
    rewrite lookup_app_l by done.
    destruct (lookup_lt_is_Some_2 pre pos Hlt) as [[k v'] Hk].
    rewrite Hk. rewrite Forall_lookup in Hpre. specialize (Hpre _ _ Hk).
    simpl in Hpre. destruct k; try done; apply IH; lia.
Qed.

Lemma push_all_entities tables (doc : @map_doc number) :
  push_all tables doc =
  MapDoc (gravity doc) (dimensions doc)
         (match tables with
          | [] => entities doc
          | _ => Some (default [] (entities doc) ++ map copy_props tables)
          end).
Proof.
  revert doc. induction tables as [|fields rest IH]; intros doc; simpl.
  - by destruct doc.
  - rewrite IH. simpl. destruct rest; simpl; [done|].
    by rewrite <- app_assoc.
Qed.

Lemma luaL_dostring_create_entities tables L (m : @module_state number) :
  globals L !! "create_entity" = Some (GHost Api_create_entity) →
  let r := luaL_dostring (map create_entity_stmt tables) L m in
  r.1 = (true, L) ∧
  current_doc r.2 = push_all tables <$> current_doc m ∧
  console r.2 = console m.
Proof.
  intros Hg. revert m. induction tables as [|fields rest IH]; intros m; simpl.
  - split; [done|]. split; [|done]. by destruct (current_doc m).
  - unfold LuaApi.call. simpl. rewrite Hg.
    cbn [LuaApi.api_run]. rewrite api_create_entity_appends.
    destruct (IH (update_mapData (push_entity (copy_props fields)) m))
      as (Hr & Hdoc & Hcon).
    split; [done|]. split; [|done].
    rewrite Hdoc, current_doc_update. by destruct (current_doc m).
Qed.

(** C9, where the code departs from it: a create_entity call on a table
    that has a number key (the keys before it being no numbers, and no
    entry having the converted key) raises an error and appends no record.
    Called from a script, it makes runLuaScript return null and leaves the
    new document empty. *)
Theorem create_entity_raises_on_number_key pre n v rest args L
    (m : @module_state number) :
  Forall (λ kv, is_number_key kv.1 = false) pre →
  key_position (number2str n) (pre ++ (LNumber n, v) :: rest) = None →
  let table := LTable (pre ++ (LNumber n, v) :: rest) in
  let r := runLuaScript [SCall false (FGlobal "create_entity") (table :: args)]
             m in
  api_create_entity (table :: args) L m = None ∧
  r.1 = None ∧
  current_doc r.2 = Some empty_doc.
Proof.
  intros Hpre Htwin table r.
  assert (api_create_entity (table :: args) L m = None ∧
          ∀ L' m', api_create_entity (table :: args) L' m' = None)
    as [Hraise Hall].
  { assert (copy_table (pre ++ (LNumber n, v) :: rest) = InvalidKey) as Hcopy.
    { apply lua_next_loop_number_key; try done; [lia|].
      rewrite length_app. simpl. lia. }
    unfold LuaApi.api_create_entity, table. simpl. by rewrite Hcopy. }
  split; [done|]. subst r.
  unfold LuaApi.runLuaScript, LuaApi.luaL_dostring, LuaApi.call, resolve.
  rewrite (script_state_host "create_entity" Api_create_entity eq_refl).
  cbn [LuaApi.api_run]. rewrite Hall. simpl.
  split; [done|]. apply current_doc_reset.
Qed.

(** C2, as the code has it: create_entity does not look at the shape
    fields.  A script of create_entity calls on tables of named fields
    returns a document holding one record per call, in call order, also
    for the specifications that lack required shape fields, and nothing is
    written to the console. *)
Theorem create_entity_does_not_validate tables (m : @module_state number) :
  let r := runLuaScript (map create_entity_stmt tables) m in
  console r.2 = console m ∧
  ∃ doc, returned_doc r = Some doc ∧
         gravity doc = None ∧ dimensions doc = None ∧
         (tables ≠ [] → entities doc = Some (map copy_props tables)) ∧
         ∀ fields, fields ∈ tables → missing_shape_fields fields = true →
                   ∃ es, entities doc = Some es ∧ copy_props fields ∈ es.
Proof.
  intros r. subst r.
  pose proof (luaL_dostring_create_entities tables script_state
                (reset_mapData m)
                (script_state_host "create_entity" Api_create_entity eq_refl))
    as (Hr & Hdoc & Hcon).
  rewrite returned_doc_runLuaScript. unfold LuaApi.runLuaScript.
  simpl in *.
  destruct (luaL_dostring (map create_entity_stmt tables) script_state
              (reset_mapData m)) as [[ok L] m1]; simpl in *.
  injection Hr as -> ->. split; [done|].
  rewrite Hdoc, current_doc_reset. simpl. eexists. split; [done|].
  rewrite push_all_entities. simpl. repeat split.
  - by destruct tables.
  - intros fields Hin _. destruct tables as [|t ts]; [by apply not_elem_of_nil in Hin|].
    eexists. split; [done|]. by apply list_elem_of_fmap_2.
Qed.

(** ** The registered library *)

Lemma cursorArenaLib_names :
  cursorArenaLib.*1 =
  ["set_gravity"; "create_entity"; "on_mouse_click"; "set_map_dimensions"].
Proof. done. Qed.

(** C3: [set_cursor_size] and [on_object_collision], which
    MAP_EDITOR_API.md documents, are not in [cursorArenaLib]; a script that
    calls either of them fails and runLuaScript returns null. *)
Theorem documented_functions_not_registered fn args
    (m : @module_state number) :
  fn ∈ ["set_cursor_size"; "on_object_collision"] →
  fn ∉ std_names →
  assoc fn cursorArenaLib = None ∧
  (runLuaScript [SCall false (FGlobal fn) args] m).1 = None ∧
  (runLuaScript [SCall false (FField "cursor_arena" fn) args] m).1 = None.
Proof.
  intros Hfn Hstd.
  assert (assoc fn cursorArenaLib = None ∧ fn ≠ "cursor_arena") as [Hlib Hne].
  { set_unfold in Hfn. destruct Hfn as [->|[->|[]]]; done. }
  split; [done|].
  unfold LuaApi.runLuaScript, LuaApi.luaL_dostring, LuaApi.call, resolve.
  rewrite script_state_unregistered, script_state_lib, Hlib by done.
  by case_decide.
Qed.

(** ** on_mouse_click *)

Lemma luaL_dostring_on_mouse_click closures L (m : @module_state number) :
  globals L !! "on_mouse_click" = Some (GHost Api_on_mouse_click) →
  let r := luaL_dostring (map on_mouse_click_stmt closures) L m in
  r.1.1 = true ∧
  registry r.1.2 = registry L ++ map LFunction closures ∧
  onMouseClick r.2 =
    match closures with
    | [] => onMouseClick m
    | _ => Some (Z.of_nat (length (registry L) + length closures))
    end.
Proof.
  revert L m. induction closures as [|c closures IH]; intros L m Hg; simpl.
  - by rewrite app_nil_r.
  - unfold LuaApi.call. simpl. rewrite Hg. simpl.
    destruct (IH (LuaState (globals L) (registry L ++ [LFunction c]))
                 (ModuleState (heap m) (mapData m)
                    (Some (Z.of_nat (length (registry L)) + 1)%Z) (console m))
                 Hg) as (Hok & Hreg & Hclick).
    split; [done|]. split.
    + rewrite Hreg. simpl. by rewrite <- app_assoc.
    + rewrite Hclick. simpl. destruct closures; simpl.
      * f_equal. lia.
      * rewrite length_app. simpl. f_equal. lia.
Qed.

(** C5, as the code has it: the host keeps one registry reference in
    [onMouseClick].  After a script has registered any number of click
    callbacks, the reference stands for the callback registered last; the
    earlier ones are no longer reachable from the host. *)
Theorem on_mouse_click_keeps_last closures c (m : @module_state number) :
  let r := luaL_dostring (map on_mouse_click_stmt (closures ++ [c]))
             script_state m in
  r.1.1 = true ∧ click_handlers r.1.2 r.2 = [LFunction c].
Proof.
  intros r. subst r.
  destruct (luaL_dostring_on_mouse_click (closures ++ [c]) script_state m
              (script_state_host "on_mouse_click" Api_on_mouse_click eq_refl))
    as (Hok & Hreg & Hclick).
  split; [done|]. unfold click_handlers, lua_rawgeti.
  rewrite Hclick, Hreg, script_state_registry.
  destruct (closures ++ [c]) as [|c' cs] eqn:Heq; [by destruct closures|].
  rewrite <- Heq.
  replace (Z.to_nat (Z.of_nat
             (length [@LOther number; LOther] + length (closures ++ [c]))) - 1)
    with (length ([LOther; LOther] ++ map (@LFunction number) closures))
    by (rewrite !length_app, length_map; simpl; lia).
  rewrite map_app, app_assoc. cbn [map].
  by rewrite list_lookup_middle.
Qed.

(** ** The module-level accumulator *)

(** C4, as the code has it: the document under construction is the object
    the module variable [mapData] refers to, not a context handed to the
    host functions.  A runLuaScript call binds the variable to a new
    object; when the call is over the variable still refers to that
    object, which holds whatever the script's calls built, and the result
    is the variable's value if the script completed and null otherwise.
    A call runs from the reset to the return without interruption, so the
    document it returns depends on its script alone. *)
Theorem mapData_is_module_state script (m : @module_state number) :
  let r := runLuaScript script m in
  let run := luaL_dostring script script_state (reset_mapData m) in
  mapData r.2 = length (heap m) ∧
  r.1 = (if run.1.1 then Some (mapData r.2) else None) ∧
  current_doc r.2 = current_doc run.2 ∧
  returned_doc r = returned_doc (runLuaScript script module_init).
Proof.
  intros r run. subst r run.
  split; [|split; [|split]].
  - unfold LuaApi.runLuaScript.
    pose proof (luaL_dostring_same_binding script script_state
                  (reset_mapData m)) as (Hb & _).
    destruct (luaL_dostring script script_state (reset_mapData m))
      as [[ok L1] m1]. by destruct ok.
  - unfold LuaApi.runLuaScript.
    destruct (luaL_dostring script script_state (reset_mapData m))
      as [[ok L1] m1]. by destruct ok.
  - unfold LuaApi.runLuaScript.
    destruct (luaL_dostring script script_state (reset_mapData m))
      as [[ok L1] m1]. by destruct ok.
  - rewrite !returned_doc_runLuaScript. simpl.
    destruct (luaL_dostring_current_doc script script_state
                (reset_mapData m) (reset_mapData module_init))
      as [Hok Hdoc]; [by rewrite !current_doc_reset|].
    by rewrite Hok, Hdoc.
Qed.

(** ** More about runs of scripts *)

Local Abbreviation js_of_lua := (LuaApi.js_of_lua str2number).
Local Abbreviation run_all :=
  (LuaApi.run_all str2number number2str std_names std_call).
Local Abbreviation api_run2 := (LuaApi.api_run2 str2number number2str).

Lemma api_run_extends_entities f args L (m : @module_state number) L' m' doc :
  api_run f args L m = Some (L', m') →
  current_doc m = Some doc →
  ∃ doc', current_doc m' = Some doc' ∧
          default [] (entities doc) `prefix_of` default [] (entities doc').
Proof.
  intros Hrun Hdoc.
  destruct f; simpl in Hrun;
    unfold api_set_gravity, api_set_map_dimensions, LuaApi.api_create_entity,
           api_on_mouse_click in Hrun.
  - simplify_option_eq. rewrite current_doc_update, Hdoc. by eexists.
  - repeat case_match; simplify_eq.
    rewrite current_doc_update, Hdoc. eexists. split; [done|].
    by apply prefix_app_r.
  - repeat case_match; simplify_eq. by exists doc.
  - simplify_option_eq. rewrite current_doc_update, Hdoc. by eexists.
Qed.

(** While a script runs, entities are only ever added at the end of the
    list: the list before the run is a prefix of the list after it,
    whether the script completes or not. *)
Theorem luaL_dostring_extends_entities script L (m : @module_state number) doc :
  current_doc m = Some doc →
  ∃ doc', current_doc (luaL_dostring script L m).2 = Some doc' ∧
          default [] (entities doc) `prefix_of` default [] (entities doc').
Proof.
  revert L m doc. induction script as [|[protected fn args|] rest IH];
    intros L m doc Hdoc; simpl; try by exists doc.
  destruct (call fn args L m) as [[L1 m1]|] eqn:Hcall.
  - assert (∃ doc1, current_doc m1 = Some doc1 ∧
              default [] (entities doc) `prefix_of` default [] (entities doc1))
      as (doc1 & Hdoc1 & Hpre).
    { unfold LuaApi.call in Hcall. repeat case_match; simplify_eq.
      - by exists doc.
      - by eapply api_run_extends_entities. }
    destruct (IH L1 m1 doc1 Hdoc1) as (doc' & Hdoc' & Hpre').
    exists doc'. split; [done|]. by etrans.
  - destruct protected; [by apply IH|by exists doc].
Qed.

Lemma api_run_outcome f args L (m m' : @module_state number) :
  fst <$> api_run f args L m = fst <$> api_run f args L m'.
Proof.
  destruct f; simpl;
    unfold api_set_gravity, api_set_map_dimensions, LuaApi.api_create_entity,
           api_on_mouse_click.
  - destruct (luaL_checknumber str2number args 1); simpl; [|done].
    by destruct (luaL_checknumber str2number args 2).
  - destruct (args !! 0) as [[| | | |entries| |]|]; try done.
    by destruct (copy_table entries).
  - destruct (args !! 0) as [[]|]; try done.
    destruct (last args) as [top|]; [|done]. by destruct (luaL_ref top L).
  - destruct (luaL_checknumber str2number args 1); simpl; [|done].
    by destruct (luaL_checknumber str2number args 2).
Qed.

(** Whether a script completes, and the Lua state it ends in, do not
    depend on the module state it starts from: no host call fails or
    succeeds because of what an earlier call or an earlier run stored. *)
Theorem luaL_dostring_outcome_independent script L
    (m m' : @module_state number) :
  (luaL_dostring script L m).1 = (luaL_dostring script L m').1.
Proof.
  revert L m m'. induction script as [|[protected fn args|] rest IH];
    intros L m m'; simpl; try done.
  assert (fst <$> call fn args L m = fst <$> call fn args L m') as Hcall.
  { unfold LuaApi.call. destruct (resolve fn L) as [[name|f]|]; try done.
    - by destruct (std_call name args).
    - apply api_run_outcome. }
  destruct (call fn args L m) as [[L1 m1]|], (call fn args L m') as [[L2 m2]|];
    simplify_eq/=; try done.
  destruct protected; [apply IH|done].
Qed.

(** ** The click handler across runs *)

Lemma api_run_globals f args L (m : @module_state number) L' m' :
  api_run f args L m = Some (L', m') → globals L' = globals L.
Proof.
  destruct f; simpl;
    unfold api_set_gravity, api_set_map_dimensions, LuaApi.api_create_entity,
           api_on_mouse_click, luaL_ref; intros H.
  - by simplify_option_eq.
  - by repeat case_match; simplify_eq.
  - by repeat case_match; simplify_eq.
  - by simplify_option_eq.
Qed.

Lemma script_state_global_host key f :
  globals script_state !! key = Some (GHost f) →
  assoc key cursorArenaLib = Some f.
Proof.
  intros Hg. destruct (assoc key cursorArenaLib) as [f'|] eqn:Hlib.
  - apply script_state_host in Hlib. congruence.
  - destruct (decide (key = "cursor_arena")) as [->|Hne].
    + rewrite script_state_lib in Hg. done.
    + rewrite script_state_unregistered in Hg by done. by case_decide.
Qed.

Lemma resolve_on_mouse_click fn (L : @lua_State number) :
  globals L = globals script_state →
  resolve fn L = Some (CHost Api_on_mouse_click) →
  names_on_mouse_click fn = true.
Proof.
  intros Hg. unfold resolve. rewrite Hg. destruct fn as [name|table name].
  - destruct (globals script_state !! name) as [[|f|]|] eqn:Hname; try done.
    intros [= ->]. apply script_state_global_host in Hname.
    simpl. apply bool_decide_eq_true.
    unfold cursorArenaLib in Hname. simpl in Hname.
    by repeat case_decide.
  - destruct (globals script_state !! table) as [[|f|fields]|] eqn:Htable;
      try done.
    destruct (decide (table = "cursor_arena")) as [->|Hne].
    + rewrite script_state_lib in Htable. injection Htable as <-.
      simpl. unfold cursorArenaLib. simpl.
      repeat case_decide; simplify_eq; try done.
    + destruct (assoc table cursorArenaLib) as [f'|] eqn:Hlib.
      * apply script_state_host in Hlib. congruence.
      * rewrite script_state_unregistered in Htable by done.
        by case_decide.
Qed.

Lemma luaL_dostring_keeps_click script L (m : @module_state number) :
  globals L = globals script_state →
  forallb (λ st, negb (registers_click st)) script = true →
  onMouseClick (luaL_dostring script L m).2 = onMouseClick m.
Proof.
  revert L m. induction script as [|[protected fn args|] rest IH];
    intros L m Hg Hno; simpl; try done.
  cbn [forallb registers_click] in Hno.
  apply andb_true_iff in Hno as [Hfn Hrest]. apply negb_true_iff in Hfn.
  destruct (call fn args L m) as [[L1 m1]|] eqn:Hcall.
  - unfold LuaApi.call in Hcall.
    destruct (resolve fn L) as [[name|f]|] eqn:Hres; try done.
    + destruct (std_call name args); simplify_eq. by apply IH.
    + rewrite IH; [| |done].
      * destruct f; simpl in Hcall;
          unfold api_set_gravity, api_set_map_dimensions,
                 LuaApi.api_create_entity in Hcall.
        -- by simplify_option_eq.
        -- by repeat case_match; simplify_eq.
        -- apply resolve_on_mouse_click in Hres; congruence.
        -- by simplify_option_eq.
      * apply api_run_globals in Hcall. congruence.
  - destruct protected; [by apply IH|done].
Qed.

(** runLuaScript does not clear the click handler: after a script that
    never calls on_mouse_click, [onMouseClick] still holds the reference an
    earlier run stored, although that run's Lua state is gone. *)
Theorem runLuaScript_keeps_click_handler script (m : @module_state number) :
  forallb (λ st, negb (registers_click st)) script = true →
  onMouseClick (runLuaScript script m).2 = onMouseClick m.
Proof.
  intros Hno. unfold LuaApi.runLuaScript.
  pose proof (luaL_dostring_keeps_click script script_state
                (reset_mapData m) eq_refl Hno) as Hclick.
  destruct (luaL_dostring script script_state (reset_mapData m))
    as [[ok L1] m1]. by destruct ok.
Qed.

(** ** Documents of earlier runs *)

Lemma runLuaScript_heap script (m : @module_state number) :
  length (heap (runLuaScript script m).2) = S (length (heap m)) ∧
  mapData (runLuaScript script m).2 = length (heap m) ∧
  ∀ ref doc, read_doc m ref = Some doc →
             read_doc (runLuaScript script m).2 ref = Some doc.
Proof.
  unfold LuaApi.runLuaScript.
  pose proof (luaL_dostring_same_binding script script_state (reset_mapData m))
    as (Hb & Hl & Hc & Hh).
  destruct (luaL_dostring script script_state (reset_mapData m))
    as [[ok L] m1]; simpl in *.
  assert (length (heap m1) = S (length (heap m))) as Hlen.
  { rewrite Hl, length_app. simpl. lia. }
  assert (∀ ref doc, read_doc m ref = Some doc → read_doc m1 ref = Some doc)
    as Hkeep.
  { intros ref doc Hdoc. unfold read_doc in *.
    assert (ref < length (heap m)) by (by eapply lookup_lt_Some).
    rewrite Hh by lia. by rewrite lookup_app_l. }
  by destruct ok.
Qed.

(** Every runLuaScript call, whatever its outcome, creates exactly one new
    document object and leaves the documents of all earlier runs as they
    were. *)
Theorem run_all_keeps_documents scripts (m : @module_state number) ref doc :
  read_doc m ref = Some doc →
  read_doc (run_all scripts m) ref = Some doc ∧
  length (heap (run_all scripts m)) = length (heap m) + length scripts.
Proof.
  revert m. induction scripts as [|script scripts IH]; intros m Hdoc.
  - split; [done|]. simpl. lia.
  - unfold LuaApi.run_all. cbn [foldl].
    destruct (runLuaScript_heap script m) as (Hlen & _ & Hkeep).
    destruct (IH _ (Hkeep _ _ Hdoc)) as [Hread Hlen'].
    split; [done|]. unfold LuaApi.run_all in Hlen'. rewrite Hlen', Hlen.
    simpl. lia.
Qed.

(** ** Values of the copied fields *)

Lemma copy_field_lookup_ne key k v (props : gmap string (@js_value number)) :
  key ≠ k → copy_field props (k, v) !! key = props !! key.
Proof using Type.
  clear number2str std_call. intros Hne. unfold LuaApi.copy_field, js_set.
  repeat case_match; try done; by rewrite lookup_insert_ne.
Qed.

Lemma copy_field_lookup_eq k v (props : gmap string (@js_value number)) :
  k ≠ "__proto__" →
  copy_field props (k, v) !! k =
  match js_of_lua v with Some j => Some j | None => props !! k end.
Proof using Type.
  clear number2str std_call. intros Hne.
  unfold LuaApi.copy_field, js_set, lua_isnumber.
  destruct v as [|b|n|str| | |]; cbn; try done;
    try (destruct (str2number str); cbn);
    (destruct (decide (k = "__proto__")); [done|]);
    by rewrite lookup_insert_eq.
Qed.

Lemma foldl_copy_field_other key fields
    (props : gmap string (@js_value number)) :
  key ∉ fields.*1 → foldl copy_field props fields !! key = props !! key.
Proof using Type.
  clear number2str std_call. revert props.
  induction fields as [|[k v] fields IH]; intros props Hnot; [done|].
  cbn [foldl]. rewrite fmap_cons in Hnot. apply not_elem_of_cons in Hnot as [? ?].
  rewrite IH by done. by apply copy_field_lookup_ne.
Qed.

(** In the record create_entity builds from a table, a field holds the
    converted value of the table's field: numbers and booleans as they
    are, a string as a number when Lua can convert it and as a string
    otherwise; a field of any other type, and a key the table does not
    have, are absent. *)
Theorem copy_props_lookup fields key :
  NoDup fields.*1 →
  key ≠ "__proto__" →
  (∀ v, (key, v) ∈ fields → copy_props fields !! key = js_of_lua v) ∧
  (key ∉ fields.*1 → copy_props fields !! key = None).
Proof using Type.
  clear number2str std_call. intros Hnodup Hkey. split.
  - intros v Hin. unfold LuaApi.copy_props.
    assert (∀ props : gmap string (@js_value number),
              foldl copy_field props fields !! key =
              match js_of_lua v with
              | Some j => Some j
              | None => props !! key
              end) as Hgen.
    { induction fields as [|[k v'] fields IH]; intros props.
      - by apply not_elem_of_nil in Hin.
      - rewrite fmap_cons in Hnodup. apply NoDup_cons in Hnodup as [Hk Hnodup].
        cbn [foldl]. apply elem_of_cons in Hin as [[= <- <-]|Hin].
        + rewrite foldl_copy_field_other by done.
          by apply copy_field_lookup_eq.
        + rewrite IH by done.
          assert (key ≠ k).
          { intros ->. apply Hk. apply list_elem_of_fmap.
            by exists (k, v). }
          by rewrite copy_field_lookup_ne. }
    rewrite Hgen, lookup_empty. by destruct (js_of_lua v).
  - intros Hnot. unfold LuaApi.copy_props.
    by rewrite foldl_copy_field_other, lookup_empty.
Qed.

(** set_gravity and set_map_dimensions overwrite: once a later call of
    the same function succeeds, nothing of the earlier call is left. *)
Theorem setter_overwrites f a b L (m : @module_state number) :
  is_setter f = true →
  is_Some (api_run f a L m) →
  api_run2 f a f b L m = api_run f b L m.
Proof.
  intros Hf [[L1 m1] Hrun]. unfold LuaApi.api_run2. rewrite Hrun.
  destruct f; try done; simpl in *;
    unfold api_set_gravity, api_set_map_dimensions in *;
    simplify_option_eq;
    destruct (luaL_checknumber str2number b 1) as [x|]; simpl; try done;
    destruct (luaL_checknumber str2number b 2) as [y|]; simpl; try done;
    unfold update_mapData; simpl; rewrite list_alter_alter_eq;
    repeat f_equal; by apply list_alter_ext.
Qed.

(** ** Tables of named fields *)

Lemma foldl_copy_field_lookup fields key v
    (props : gmap string (@js_value number)) :
  NoDup fields.*1 →
  (key, v) ∈ fields →
  key ≠ "__proto__" →
  foldl copy_field props fields !! key =
  match LuaApi.js_of_lua str2number v with
  | Some j => Some j
  | None => props !! key
  end.
Proof using Type.
  clear number2str std_call. intros Hnodup Hin Hkey. revert props.
  induction fields as [|[k v'] fields IH]; intros props.
  - by apply not_elem_of_nil in Hin.
  - rewrite fmap_cons in Hnodup. apply NoDup_cons in Hnodup as [Hk Hnodup].
    cbn [foldl]. apply elem_of_cons in Hin as [[= <- <-]|Hin].
    + rewrite foldl_copy_field_other by done.
      by apply copy_field_lookup_eq.
    + rewrite IH by done.
      assert (key ≠ k).
      { intros ->. apply Hk. apply list_elem_of_fmap. by exists (k, v). }
      by rewrite copy_field_lookup_ne.
Qed.

(** For a table of named fields create_entity succeeds and appends exactly
    one record at the end of the entity list.  The record has a key
    exactly when the table maps that key to a number, a boolean or a
    string (the key [__proto__], which a JS object literal does not store,
    apart), and, the field names being distinct, it holds the converted
    value of each such field. *)
Theorem named_table_appends_one_record fields rest L
    (m : @module_state number) doc :
  current_doc m = Some doc →
  ∃ m' record,
    api_create_entity (named_table fields :: rest) L m = Some (L, m') ∧
    current_doc m' =
      Some (MapDoc (gravity doc) (dimensions doc)
              (Some (default [] (entities doc) ++ [record]))) ∧
    (∀ key, is_Some (record !! key) ↔
            key ≠ "__proto__" ∧
            ∃ v, (key, v) ∈ fields ∧ is_primitive v = true) ∧
    (NoDup fields.*1 →
     ∀ key v, (key, v) ∈ fields → key ≠ "__proto__" →
              record !! key = LuaApi.js_of_lua str2number v).
Proof.
  intros Hdoc. exists (update_mapData (push_entity (copy_props fields)) m),
    (copy_props fields).
  split; [apply api_create_entity_appends|]. split; [|split].
  - by rewrite current_doc_update, Hdoc.
  - intros key. unfold LuaApi.copy_props.
    rewrite is_Some_foldl_copy_field, lookup_empty.
    split; [intros [[? [=]]|?]; done|by right].
  - intros Hnodup key v Hin Hkey. unfold LuaApi.copy_props.
    rewrite (foldl_copy_field_lookup fields key v ∅ Hnodup Hin Hkey).
    rewrite lookup_empty. by destruct (LuaApi.js_of_lua str2number v).
Qed.

End Facts.

(** ** The theorems at concrete inputs *)

Lemma runLuaScript_fails_closed_witness :
  (ex_runLuaScript ex_failing_script ex_loaded).1 = None ∧
  read_doc (ex_runLuaScript ex_failing_script ex_loaded).2 1 =
    Some (MapDoc None None (Some [ex_copy_props ex_rect])).
Proof.
  destruct (runLuaScript_fails_closed ex_str2number ex_number2str ex_std_names ex_std_call
              ex_failing_script ex_loaded) as [Hfail _].
  destruct Hfail as [Hnull Hkeep]; [by vm_compute|].
  split; [exact Hnull|]. apply Hkeep. by vm_compute.
Defined.

Lemma create_entity_raises_on_number_key_witness :
  api_create_entity ex_str2number ex_number2str [LTable ex_numbered_table]
    luaL_newstate ex_loaded = None ∧
  (ex_runLuaScript
     [SCall false (FGlobal "create_entity") [LTable ex_numbered_table]]
     ex_loaded).1 = None.
Proof.
  destruct (create_entity_raises_on_number_key ex_str2number ex_number2str
              ex_std_names ex_std_call
              [(LString "shape", LString "rect")] 1%Z (LNumber 10%Z) [] []
              luaL_newstate ex_loaded) as (Hraise & Hnull & _).
  - apply Forall_cons. split; [reflexivity|apply Forall_nil_2].
  - by vm_compute.
  - split; [exact Hraise|exact Hnull].
Defined.

(** C2 fails on the code: a "rect" without its corner fields is appended
    like any other entity, and the console stays empty. *)
Lemma create_entity_accepts_incomplete_rect :
  missing_shape_fields ex_bad_rect = true ∧
  let r := ex_runLuaScript
             [create_entity_stmt ex_rect; create_entity_stmt ex_bad_rect]
             module_init in
  entities <$> returned_doc r =
    Some (Some [ex_copy_props ex_rect; {[ "shape" := JsString "rect" ]}]) ∧
  console r.2 = [].
Proof. by vm_compute. Qed.

Lemma create_entity_does_not_validate_witness :
  ∃ doc es,
    returned_doc (ex_runLuaScript
                    (map create_entity_stmt [ex_rect; ex_bad_rect])
                    module_init) = Some doc ∧
    entities doc = Some es ∧ ex_copy_props ex_bad_rect ∈ es.
Proof.
  destruct (create_entity_does_not_validate ex_str2number ex_number2str ex_std_names
              ex_std_call [ex_rect; ex_bad_rect] module_init)
    as (_ & doc & Hdoc & _ & _ & _ & Hin).
  destruct (Hin ex_bad_rect) as (es & Hes & Hmem).
  - apply list_elem_of_further, list_elem_of_here.
  - reflexivity.
  - exists doc, es. split; [exact Hdoc|]. split; [exact Hes|exact Hmem].
Defined.

Lemma documented_functions_not_registered_witness :
  (ex_runLuaScript [SCall false (FGlobal "set_cursor_size") [LNumber 5%Z]]
     ex_loaded).1 = None.
Proof.
  destruct (documented_functions_not_registered ex_str2number ex_number2str ex_std_names
              ex_std_call "set_cursor_size" [LNumber 5%Z] ex_loaded)
    as (_ & Hnull & _).
  - apply (bool_decide_unpack _). by vm_compute.
  - apply (bool_decide_unpack _). by vm_compute.
  - exact Hnull.
Defined.

(** C5 fails on the code: after two registrations the host holds the
    second callback only. *)
Lemma second_click_handler_replaces_first :
  let r := luaL_dostring ex_str2number ex_number2str ex_std_call
             [on_mouse_click_stmt 1; on_mouse_click_stmt 2]
             (script_state ex_std_names) module_init in
  r.1.1 = true ∧
  onMouseClick r.2 = Some 4%Z ∧
  click_handlers r.1.2 r.2 = [LFunction 2] ∧
  LFunction 1 ∉ click_handlers r.1.2 r.2.
Proof.
  intros r.
  assert (click_handlers r.1.2 r.2 = [LFunction 2]) as Hh by (by vm_compute).
  split; [by vm_compute|]. split; [by vm_compute|]. split; [done|].
  rewrite Hh. by intros [=]%list_elem_of_singleton.
Qed.

(** C4 fails on the code: the document under construction lives in the
    module.  After a run that failed and returned null, the module
    variable refers to a new object, which holds the entity the script
    had created before it failed. *)
Lemma failed_run_leaves_partial_document :
  let r := ex_runLuaScript ex_failing_script ex_loaded in
  r.1 = None ∧
  mapData ex_loaded = 1 ∧
  mapData r.2 = 2 ∧
  current_doc r.2 =
    Some (MapDoc None None (Some [ex_copy_props ex_bad_rect])).
Proof. by vm_compute. Qed.

Lemma luaL_dostring_extends_entities_witness :
  ∃ doc', current_doc
            (luaL_dostring ex_str2number ex_number2str ex_std_call ex_failing_script
               (script_state ex_std_names) ex_loaded).2 = Some doc' ∧
          [ex_copy_props ex_rect] `prefix_of` default [] (entities doc').
Proof.
  apply (luaL_dostring_extends_entities ex_str2number ex_number2str ex_std_call
           ex_failing_script (script_state ex_std_names) ex_loaded
           (MapDoc None None (Some [ex_copy_props ex_rect]))).
  by vm_compute.
Defined.

Lemma runLuaScript_keeps_click_handler_witness :
  onMouseClick (ex_runLuaScript [create_entity_stmt ex_rect] ex_clicked).2 =
  onMouseClick ex_clicked.
Proof.
  apply (runLuaScript_keeps_click_handler ex_str2number ex_number2str ex_std_names
           ex_std_call [create_entity_stmt ex_rect] ex_clicked).
  reflexivity.
Defined.

Lemma run_all_keeps_documents_witness :
  read_doc (ex_run_all [ex_failing_script; ex_protected_script] ex_loaded) 1 =
    Some (MapDoc None None (Some [ex_copy_props ex_rect])) ∧
  length (heap (ex_run_all [ex_failing_script; ex_protected_script]
                  ex_loaded)) = 4.
Proof.
  apply (run_all_keeps_documents ex_str2number ex_number2str ex_std_names ex_std_call
           [ex_failing_script; ex_protected_script] ex_loaded 1
           (MapDoc None None (Some [ex_copy_props ex_rect]))).
  by vm_compute.
Defined.

Lemma copy_props_lookup_witness :
  ex_copy_props [("x", LString "10"); ("shape", LString "rect")] !! "x" =
  Some (JsNumber 10%Z).
Proof.
  destruct (copy_props_lookup ex_str2number
              [("x", LString "10"); ("shape", LString "rect")] "x")
    as [Hin _].
  - apply (bool_decide_unpack _). by vm_compute.
  - discriminate.
  - apply (Hin (LString "10")). apply list_elem_of_here.
Defined.

Lemma setter_overwrites_witness :
  api_run2 ex_str2number ex_number2str Api_set_gravity [LNumber 0%Z; LNumber 9%Z]
    Api_set_gravity [LNumber 0%Z; LString "10"] luaL_newstate ex_loaded =
  api_run ex_str2number ex_number2str Api_set_gravity [LNumber 0%Z; LString "10"]
    luaL_newstate ex_loaded.
Proof.
  apply (setter_overwrites ex_str2number ex_number2str Api_set_gravity
           [LNumber 0%Z; LNumber 9%Z] [LNumber 0%Z; LString "10"]
           luaL_newstate ex_loaded).
  - reflexivity.
  - eexists. reflexivity.
Defined.

Lemma named_table_appends_one_record_witness :
  ∃ m' record,
    api_create_entity ex_str2number ex_number2str [named_table ex_rect]
      luaL_newstate ex_loaded = Some (luaL_newstate, m') ∧
    current_doc m' =
      Some (MapDoc None None (Some ([ex_copy_props ex_rect] ++ [record]))) ∧
    record !! "x2" = Some (JsNumber 9%Z).
Proof.
  destruct (named_table_appends_one_record ex_str2number ex_number2str
              ex_rect [] luaL_newstate ex_loaded
              (MapDoc None None (Some [ex_copy_props ex_rect])))
    as (m' & record & Hcall & Hdoc & _ & Hvalue); [by vm_compute|].
  exists m', record. split; [exact Hcall|]. split; [exact Hdoc|].
  apply (Hvalue) with (v := LNumber 9%Z).
  - apply (bool_decide_unpack _). by vm_compute.
  - do 3 apply list_elem_of_further. apply list_elem_of_here.
  - discriminate.
Defined.

End LuaApiFacts.

(** * Properties of the client input buffers *)

Module BootstrapFacts.

Import Bootstrap.

Section Facts.

Context {number canvas game : Type}.
Variable num : Z -> number.
Variable add sub div : number -> number -> number.
Variable gt : number -> number -> bool.
Variable JSON_parse : string -> option (@json number).
Variable JSON_stringify : @json number -> string.
Variable draw :
  @json number -> number -> option (@json number) -> canvas -> canvas * bool.
Variable game_tick : number -> number -> bool -> game -> game.
Variable get_game_state : game -> string.
Variable draw_local : @json number -> number -> canvas -> canvas * bool.

(** Negation of a double; subtracting is adding the negation. *)
Variable opp : number -> number.
Hypothesis sub_add_opp : ∀ a b, sub a b = add a (opp b).

Local Abbreviation onmessage := (Bootstrap.onmessage JSON_parse draw).
Local Abbreviation sendInput := (Bootstrap.sendInput num div JSON_stringify).
Local Abbreviation mp_step :=
  (Bootstrap.mp_step num add sub div gt JSON_parse JSON_stringify draw).
Local Abbreviation mp_run :=
  (Bootstrap.mp_run num add sub div gt JSON_parse JSON_stringify draw).
Local Abbreviation mp_quiet :=
  (Bootstrap.mp_quiet num add sub div gt JSON_parse JSON_stringify draw).
Local Abbreviation mp_moves :=
  (Bootstrap.mp_moves num add sub div gt JSON_parse JSON_stringify draw).
Local Abbreviation mp_buttons :=
  (Bootstrap.mp_buttons num add sub div gt JSON_parse JSON_stringify draw).
Local Abbreviation updatePosition := (Bootstrap.updatePosition add sub).
Local Abbreviation gameLoop :=
  (Bootstrap.gameLoop num div JSON_parse game_tick get_game_state draw_local).
Local Abbreviation local_step :=
  (Bootstrap.local_step num add sub div gt JSON_parse game_tick
     get_game_state draw_local).
Local Abbreviation local_run :=
  (Bootstrap.local_run num add sub div gt JSON_parse game_tick
     get_game_state draw_local).
Local Abbreviation lc_quiet :=
  (Bootstrap.lc_quiet num add sub div gt JSON_parse game_tick
     get_game_state draw_local).
Local Abbreviation lc_moves :=
  (Bootstrap.lc_moves num add sub div gt JSON_parse game_tick
     get_game_state draw_local).
Local Abbreviation sum_from_zero := (Bootstrap.sum_from_zero num add).

Lemma foldl_sub_add_opp (a : number) (deltas : list number) :
  foldl sub a deltas = foldl add a (opp <$> deltas).
Proof using sub_add_opp.
  revert a. induction deltas as [|d deltas IH]; intros a; simpl; [done|].
  by rewrite IH, sub_add_opp.
Qed.

(** ** socket.onmessage *)

Lemma onmessage_keeps_buffers data (s : @mp_state number canvas) :
  let s' := onmessage data s in
  readyState s' = readyState s ∧ mp_scale s' = mp_scale s ∧
  mp_input s' = mp_input s ∧ outbox s' = outbox s ∧
  mousemove_listener s' = mousemove_listener s ∧
  button_listeners s' = button_listeners s ∧
  input_timer s' = input_timer s.
Proof.
  unfold Bootstrap.onmessage, onmessage_try.
  destruct (JSON_parse data) as [message|]; [|done].
  destruct (get_property message "type") as [type|]; [|done].
  destruct (is_string type "Welcome").
  { by destruct (get_property message "id"). }
  destruct (is_string type "GameState"); [|done].
  by destruct (draw message (mp_scale s) (localPlayerId s) (mp_canvas s))
    as [c []].
Qed.

(** C8: a message that JSON.parse rejects changes nothing but the console:
    the handler logs the error and returns; the player id, the input
    buffer, the outbox and the socket's state are as before. *)
Theorem unparseable_message_is_dropped data (s : @mp_state number canvas) :
  JSON_parse data = None →
  mp_step s (SocketMessage data) =
    mp_console_error "Error parsing message:" s ∧
  localPlayerId (mp_step s (SocketMessage data)) = localPlayerId s ∧
  mp_input (mp_step s (SocketMessage data)) = mp_input s ∧
  readyState (mp_step s (SocketMessage data)) = readyState s ∧
  mp_canvas (mp_step s (SocketMessage data)) = mp_canvas s.
Proof.
  intros Hparse. simpl. unfold Bootstrap.onmessage, onmessage_try.
  by rewrite Hparse.
Qed.

(** ** The buffer between two sends *)

Lemma mp_step_buffer (s : @mp_state number canvas) ev :
  mp_sends s ev = false →
  outbox (mp_step s ev) = outbox s ∧
  mouse_dx (mp_input (mp_step s ev)) =
    foldl add (mouse_dx (mp_input s)) (movementX <$> mp_moves s [ev]) ∧
  mouse_dy (mp_input (mp_step s ev)) =
    foldl sub (mouse_dy (mp_input s)) (movementY <$> mp_moves s [ev]) ∧
  isMouseDown (mp_input (mp_step s ev)) =
    default (isMouseDown (mp_input s)) (last (mp_buttons s [ev])).
Proof.
  intros Hquiet. destruct ev; simpl in *; try done.
  - by destruct (onmessage_keeps_buffers data s) as (_ & _ & -> & -> & _).
  - by destruct (mousemove_listener s).
  - by destruct (button_listeners s).
  - by destruct (button_listeners s).
  - unfold Bootstrap.sendInput.
    destruct (input_timer s); [|done]. by destruct (readyState s).
Qed.

Lemma mp_moves_cons (s : @mp_state number canvas) ev evs :
  mp_moves s (ev :: evs) = mp_moves s [ev] ++ mp_moves (mp_step s ev) evs.
Proof. simpl. by rewrite app_nil_r. Qed.

Lemma mp_buttons_cons (s : @mp_state number canvas) ev evs :
  mp_buttons s (ev :: evs) =
  mp_buttons s [ev] ++ mp_buttons (mp_step s ev) evs.
Proof. simpl. by rewrite app_nil_r. Qed.

Lemma default_last_app {A} (a : A) (l1 l2 : list A) :
  default a (last (l1 ++ l2)) = default (default a (last l1)) (last l2).
Proof. rewrite last_app. by destruct (last l2). Qed.

Lemma mp_run_buffer (s : @mp_state number canvas) evs :
  mp_quiet s evs = true →
  outbox (mp_run s evs) = outbox s ∧
  mouse_dx (mp_input (mp_run s evs)) =
    foldl add (mouse_dx (mp_input s)) (movementX <$> mp_moves s evs) ∧
  mouse_dy (mp_input (mp_run s evs)) =
    foldl sub (mouse_dy (mp_input s)) (movementY <$> mp_moves s evs) ∧
  isMouseDown (mp_input (mp_run s evs)) =
    default (isMouseDown (mp_input s)) (last (mp_buttons s evs)).
Proof.
  revert s. induction evs as [|ev evs IH]; intros s Hquiet; [done|].
  cbn [Bootstrap.mp_quiet] in Hquiet.
  apply andb_true_iff in Hquiet as [Hev Hrest].
  apply negb_true_iff in Hev.
  destruct (mp_step_buffer s ev Hev) as (Hout & Hdx & Hdy & Hdown).
  destruct (IH _ Hrest) as (Hout' & Hdx' & Hdy' & Hdown').
  unfold Bootstrap.mp_run in *. cbn [foldl].
  rewrite mp_moves_cons, mp_buttons_cons, !fmap_app, !foldl_app,
    default_last_app.
  rewrite Hout', Hdx', Hdy', Hdown'. by rewrite Hout, Hdx, Hdy, Hdown.
Qed.

(** C6: the message [sendInput] sends is an object with the three fields
    [mouse_dx], [mouse_dy] and [is_mouse_down]; the two numbers are the
    sums of the [movementX] and of the negated [movementY] of the mouse
    moves handled since the previous send, divided by the scale at the
    time of sending, and the buffer is zero again afterwards. *)
Theorem sendInput_message (s : @mp_state number canvas) evs :
  mouse_dx (mp_input s) = num 0 →
  mouse_dy (mp_input s) = num 0 →
  mp_quiet s evs = true →
  mp_sends (mp_run s evs) Interval = true →
  let s1 := mp_run s evs in
  let s2 := mp_step s1 Interval in
  outbox s2 =
    outbox s ++
    [JSON_stringify
       (JObject
          [ ("mouse_dx",
             JNumber (div (sum_from_zero (movementX <$> mp_moves s evs))
                          (mp_scale s1)));
            ("mouse_dy",
             JNumber (div (sum_from_zero
                             (opp <$> (movementY <$> mp_moves s evs)))
                          (mp_scale s1)));
            ("is_mouse_down",
             JBool (default (isMouseDown (mp_input s))
                            (last (mp_buttons s evs)))) ])] ∧
  mouse_dx (mp_input s2) = num 0 ∧
  mouse_dy (mp_input s2) = num 0.
Proof using sub_add_opp.
  intros Hx Hy Hquiet Hsend s1 s2. subst s1 s2.
  destruct (mp_run_buffer s evs Hquiet) as (Hout & Hdx & Hdy & Hdown).
  unfold mp_sends in Hsend. simpl.
  destruct (readyState (mp_run s evs)) eqn:Hready; try done.
  rewrite Hsend. unfold Bootstrap.sendInput, input_message.
  rewrite Hready. simpl. split; [|done].
  rewrite Hout, Hdx, Hdy, Hdown, Hx, Hy. by rewrite foldl_sub_add_opp.
Qed.

(** ** The buffer between two ticks of the local game *)

Lemma local_step_buffer (s : @local_state number canvas game) ev :
  lc_ticks s ev = false →
  ticks (local_step s ev) = ticks s ∧
  lc_scale (local_step s ev) =
    match ev with
    | LResize width height => resize_scale num div gt width height
    | _ => lc_scale s
    end ∧
  mouse_dx (lc_input (local_step s ev)) =
    foldl add (mouse_dx (lc_input s)) (movementX <$> lc_moves s [ev]) ∧
  mouse_dy (lc_input (local_step s ev)) =
    foldl sub (mouse_dy (lc_input s)) (movementY <$> lc_moves s [ev]) ∧
  isMouseDown (lc_input (local_step s ev)) =
    default (isMouseDown (lc_input s)) (last (lc_buttons [ev])).
Proof.
  intros Hquiet. destruct ev; simpl in *; try done.
  - by rewrite Hquiet.
  - by destruct (lc_mousemove_listener s).
Qed.

Lemma lc_moves_cons (s : @local_state number canvas game) ev evs :
  lc_moves s (ev :: evs) = lc_moves s [ev] ++ lc_moves (local_step s ev) evs.
Proof. simpl. by rewrite app_nil_r. Qed.

Lemma lc_buttons_cons (ev : @local_event number) evs :
  lc_buttons (ev :: evs) = lc_buttons [ev] ++ lc_buttons evs.
Proof. by destruct ev. Qed.

Lemma local_run_buffer (s : @local_state number canvas game) evs :
  lc_quiet s evs = true →
  ticks (local_run s evs) = ticks s ∧
  mouse_dx (lc_input (local_run s evs)) =
    foldl add (mouse_dx (lc_input s)) (movementX <$> lc_moves s evs) ∧
  mouse_dy (lc_input (local_run s evs)) =
    foldl sub (mouse_dy (lc_input s)) (movementY <$> lc_moves s evs) ∧
  isMouseDown (lc_input (local_run s evs)) =
    default (isMouseDown (lc_input s)) (last (lc_buttons evs)).
Proof.
  revert s. induction evs as [|ev evs IH]; intros s Hquiet; [done|].
  cbn [Bootstrap.lc_quiet] in Hquiet.
  apply andb_true_iff in Hquiet as [Hev Hrest].
  apply negb_true_iff in Hev.
  destruct (local_step_buffer s ev Hev) as (Ht & _ & Hdx & Hdy & Hdown).
  destruct (IH _ Hrest) as (Ht' & Hdx' & Hdy' & Hdown').
  unfold Bootstrap.local_run in *. cbn [foldl].
  rewrite lc_moves_cons, lc_buttons_cons, !fmap_app, !foldl_app,
    default_last_app.
  rewrite Ht', Hdx', Hdy', Hdown'. by rewrite Ht, Hdx, Hdy, Hdown.
Qed.

(** C7: between two ticks the buffered deltas are the sums of the
    [movementX] and of the negated [movementY] of the mouse moves handled
    since the last tick, and the buffered button state is the one written
    by the latest mousedown or mouseup; a tick hands the buffer, divided by
    the scale, to [game.tick] once and sets the deltas to zero, leaving
    the button state as it is. *)
Theorem input_buffer_between_ticks (s : @local_state number canvas game) evs :
  mouse_dx (lc_input s) = num 0 →
  mouse_dy (lc_input s) = num 0 →
  lc_quiet s evs = true →
  let s1 := local_run s evs in
  let s2 := gameLoop s1 in
  let dx := sum_from_zero (movementX <$> lc_moves s evs) in
  let dy := sum_from_zero (opp <$> (movementY <$> lc_moves s evs)) in
  let down := default (isMouseDown (lc_input s)) (last (lc_buttons evs)) in
  lc_input s1 = InputState dx dy down ∧
  ticks s2 = ticks s ++ [(div dx (lc_scale s1), div dy (lc_scale s1), down)] ∧
  lc_game s2 =
    game_tick (div dx (lc_scale s1)) (div dy (lc_scale s1)) down (lc_game s1) ∧
  lc_input s2 = InputState (num 0) (num 0) down.
Proof using sub_add_opp.
  intros Hx Hy Hquiet s1 s2 dx dy down. subst s1 s2 dx dy down.
  destruct (local_run_buffer s evs Hquiet) as (Ht & Hdx & Hdy & Hdown).
  rewrite Hx in Hdx. rewrite Hy, foldl_sub_add_opp in Hdy.
  assert (lc_input (local_run s evs) =
          InputState (sum_from_zero (movementX <$> lc_moves s evs))
            (sum_from_zero (opp <$> (movementY <$> lc_moves s evs)))
            (default (isMouseDown (lc_input s)) (last (lc_buttons evs))))
    as Hinput.
  { destruct (lc_input (local_run s evs)); simpl in *. by subst. }
  split; [done|]. unfold Bootstrap.gameLoop. rewrite Hinput, Ht. simpl.
  destruct (JSON_parse _) as [gameState|]; [|done].
  by destruct (draw_local gameState _ _) as [c ok].
Qed.

(** ** More about the multiplayer client *)

Local Abbreviation mp_send_count :=
  (Bootstrap.mp_send_count num add sub div gt JSON_parse JSON_stringify draw).
Local Abbreviation mp_resizes := (Bootstrap.mp_resizes num div gt).
Local Abbreviation mp_init := (Bootstrap.mp_init (canvas:=canvas) num div gt).

(** Whatever the server sends, parseable or not, the handler leaves the
    input buffer, the outbox, the scale, the socket state and the
    registered listeners alone. *)
Theorem inbound_message_keeps_client_input data (s : @mp_state number canvas) :
  mp_input (onmessage data s) = mp_input s ∧
  outbox (onmessage data s) = outbox s ∧
  mp_scale (onmessage data s) = mp_scale s ∧
  readyState (onmessage data s) = readyState s ∧
  mousemove_listener (onmessage data s) = mousemove_listener s ∧
  button_listeners (onmessage data s) = button_listeners s ∧
  input_timer (onmessage data s) = input_timer s.
Proof.
  by destruct (onmessage_keeps_buffers data s)
    as (-> & -> & -> & -> & -> & -> & ->).
Qed.

Lemma mp_step_without_open (s : @mp_state number canvas) ev :
  is_SocketOpen ev = false →
  readyState s ≠ OPEN →
  readyState (mp_step s ev) ≠ OPEN ∧
  outbox (mp_step s ev) = outbox s ∧
  mousemove_listener (mp_step s ev) = mousemove_listener s && negb
    (match ev with SocketClose => true | _ => false end) ∧
  button_listeners (mp_step s ev) = button_listeners s.
Proof.
  intros Hev Hready. destruct ev; simpl in *; try done.
  - destruct (onmessage_keeps_buffers data s)
      as (-> & _ & _ & -> & -> & -> & _). by rewrite andb_true_r.
  - by rewrite andb_true_r.
  - by rewrite andb_false_r.
  - destruct (mousemove_listener s) eqn:E; simpl;
      by rewrite ?E, ?andb_true_r.
  - destruct (button_listeners s) eqn:E; simpl;
      by rewrite ?E, ?andb_true_r.
  - destruct (button_listeners s) eqn:E; simpl;
      by rewrite ?E, ?andb_true_r.
  - unfold Bootstrap.sendInput. rewrite andb_true_r.
    destruct (input_timer s); [|done].
    destruct (readyState s) eqn:E; simpl; by rewrite ?E.
  - by rewrite andb_true_r.
Qed.

Lemma mp_run_without_open (s : @mp_state number canvas) evs :
  forallb (λ ev, negb (is_SocketOpen ev)) evs = true →
  readyState s ≠ OPEN →
  mousemove_listener s = false →
  outbox (mp_run s evs) = outbox s ∧
  mouse_dx (mp_input (mp_run s evs)) = mouse_dx (mp_input s) ∧
  mouse_dy (mp_input (mp_run s evs)) = mouse_dy (mp_input s) ∧
  button_listeners (mp_run s evs) = button_listeners s ∧
  (button_listeners s = false →
   isMouseDown (mp_input (mp_run s evs)) = isMouseDown (mp_input s)).
Proof.
  revert s. induction evs as [|ev evs IH]; intros s Hno Hready Hlisten;
    [done|].
  cbn [forallb] in Hno. apply andb_true_iff in Hno as [Hev Hrest].
  apply negb_true_iff in Hev.
  destruct (mp_step_without_open s ev Hev Hready)
    as (Hready' & Hout & Hlisten' & Hbuttons).
  rewrite Hlisten in Hlisten'. simpl in Hlisten'.
  destruct (IH (mp_step s ev) Hrest Hready' Hlisten')
    as (Hout' & Hdx & Hdy & Hb & Hdown).
  unfold Bootstrap.mp_run in *. cbn [foldl].
  rewrite Hout', Hdx, Hdy, Hb, Hout, Hbuttons.
  assert (mp_sends s ev = false) as Hquiet.
  { unfold mp_sends. destruct ev; try done. by destruct (readyState s). }
  destruct (mp_step_buffer s ev Hquiet) as (_ & Hdx1 & Hdy1 & Hdown1).
  assert (mp_moves s [ev] = []) as Hmoves.
  { destruct ev; try done. simpl. by rewrite Hlisten. }
  rewrite Hmoves in Hdx1, Hdy1. simpl in Hdx1, Hdy1.
  repeat split; try done.
  intros Hnob. rewrite Hdown by congruence. rewrite Hdown1.
  assert (mp_buttons s [ev] = []) as ->; [|done].
  destruct ev; try done; simpl; by rewrite Hnob.
Qed.

(** Until the socket opens the client ignores the mouse altogether and
    sends nothing: no listener and no timer is installed before
    [onopen]. *)
Theorem no_input_before_open width height (c : canvas) evs :
  forallb (λ ev, negb (is_SocketOpen ev)) evs = true →
  mp_input (mp_run (mp_init width height c) evs) = inputState_init num ∧
  outbox (mp_run (mp_init width height c) evs) = [].
Proof.
  intros Hno.
  destruct (mp_run_without_open (mp_init width height c) evs Hno)
    as (Hout & Hdx & Hdy & _ & Hdown); [done|done|].
  split; [|done].
  destruct (mp_input (mp_run (mp_init width height c) evs)); simpl in *.
  rewrite Hdx, Hdy, Hdown by done. done.
Qed.

(** Once the socket has closed, nothing is sent any more and mouse moves
    no longer reach the buffer (the mousemove listener is removed), while
    the interval timer and the button listeners stay installed. *)
Theorem nothing_sent_after_close (s : @mp_state number canvas) evs :
  forallb (λ ev, negb (is_SocketOpen ev)) evs = true →
  let s' := mp_run (onclose s) evs in
  outbox s' = outbox s ∧
  mouse_dx (mp_input s') = mouse_dx (mp_input s) ∧
  mouse_dy (mp_input s') = mouse_dy (mp_input s) ∧
  button_listeners s' = button_listeners s ∧
  input_timer s' = input_timer s.
Proof.
  intros Hno s'. subst s'.
  destruct (mp_run_without_open (onclose s) evs Hno)
    as (Hout & Hdx & Hdy & Hb & _); [done|done|].
  repeat split; try done.
  clear -Hno. assert (input_timer (onclose s) = input_timer s) as <- by done.
  generalize (onclose s) as s0. induction evs as [|ev evs IH]; intros s0;
    [done|].
  cbn [forallb] in Hno. apply andb_true_iff in Hno as [Hev Hrest].
  unfold Bootstrap.mp_run in *. cbn [foldl]. rewrite IH by done.
  destruct ev; simpl in *; try done.
  - by destruct (onmessage_keeps_buffers data s0) as (_ & _ & _ & _ & _ & _ & ->).
  - by destruct (mousemove_listener s0).
  - by destruct (button_listeners s0).
  - by destruct (button_listeners s0).
  - unfold Bootstrap.sendInput. destruct (input_timer s0) eqn:Ht; [|done].
    by destruct (readyState s0).
Qed.

Lemma mp_step_outbox (s : @mp_state number canvas) ev :
  outbox (mp_step s ev) =
  outbox s ++
  (if mp_sends s ev
   then [JSON_stringify (input_message div (mp_input s) (mp_scale s))]
   else []).
Proof.
  destruct (mp_sends s ev) eqn:Hsend.
  - unfold mp_sends in Hsend. destruct ev; try done. simpl.
    destruct (readyState s) eqn:Hready; try done. rewrite Hsend.
    unfold Bootstrap.sendInput. by rewrite Hready.
  - destruct (mp_step_buffer s ev Hsend) as (-> & _). by rewrite app_nil_r.
Qed.

(** Over any sequence of events the outbox only grows, by exactly one
    payload for every timer tick that finds the socket open, and every
    payload is the serialisation of an object with the three fields
    [mouse_dx], [mouse_dy] (numbers) and [is_mouse_down] (a boolean), in
    that order. *)
Theorem outbox_holds_input_messages (s : @mp_state number canvas) evs :
  ∃ sent,
    outbox (mp_run s evs) = outbox s ++ sent ∧
    length sent = mp_send_count s evs ∧
    Forall (λ payload,
              ∃ dx dy down,
                payload =
                JSON_stringify
                  (JObject [ ("mouse_dx", JNumber dx);
                             ("mouse_dy", JNumber dy);
                             ("is_mouse_down", JBool down) ])) sent.
Proof.
  revert s. induction evs as [|ev evs IH]; intros s.
  - exists []. by rewrite app_nil_r.
  - destruct (IH (mp_step s ev)) as (sent & Hout & Hlen & Hall).
    unfold Bootstrap.mp_run in *. cbn [foldl Bootstrap.mp_send_count].
    rewrite Hout, mp_step_outbox, <- app_assoc.
    eexists. split; [done|]. rewrite length_app, Hlen. split.
    + by destruct (mp_sends s ev).
    + apply Forall_app. split; [|done].
      destruct (mp_sends s ev); [|done].
      apply Forall_singleton. by eexists _, _, _.
Qed.

Lemma mp_resizes_cons (ev : @mp_event number) evs :
  mp_resizes (ev :: evs) = mp_resizes [ev] ++ mp_resizes evs.
Proof. by destruct ev. Qed.

(** The scale in force after a sequence of events is the one computed by
    the last resize among them, or the earlier scale when there was none;
    no other event touches it. *)
Theorem scale_is_last_resize (s : @mp_state number canvas) evs :
  mp_scale (mp_run s evs) = default (mp_scale s) (last (mp_resizes evs)).
Proof.
  revert s. induction evs as [|ev evs IH]; intros s; [done|].
  unfold Bootstrap.mp_run in *. cbn [foldl].
  rewrite IH, mp_resizes_cons, default_last_app. f_equal.
  destruct ev; simpl; try done.
  - by destruct (onmessage_keeps_buffers data s) as (_ & -> & _).
  - by destruct (mousemove_listener s).
  - by destruct (button_listeners s).
  - by destruct (button_listeners s).
  - unfold Bootstrap.sendInput. destruct (input_timer s); [|done].
    by destruct (readyState s).
Qed.

(** ** More about the local game *)

Local Abbreviation lc_frame_count :=
  (Bootstrap.lc_frame_count num add sub div gt JSON_parse game_tick
     get_game_state draw_local).
Local Abbreviation apply_tick := (Bootstrap.apply_tick game_tick).

Lemma gameLoop_tick (s : @local_state number canvas game) :
  ∃ t, ticks (gameLoop s) = ticks s ++ [t] ∧
       lc_game (gameLoop s) = apply_tick (lc_game s) t ∧
       lc_mousemove_listener (gameLoop s) = lc_mousemove_listener s.
Proof.
  unfold Bootstrap.gameLoop. eexists. 
  destruct (JSON_parse _) as [gameState|]; [|done].
  by destruct (draw_local gameState _ _) as [c ok].
Qed.

(** The game object is advanced by [game.tick] only, once for every
    animation frame that runs: the game after a sequence of events is the
    old game with the recorded ticks applied in order. *)
Theorem game_advances_by_ticks (s : @local_state number canvas game) evs :
  ∃ new,
    ticks (local_run s evs) = ticks s ++ new ∧
    length new = lc_frame_count s evs ∧
    lc_game (local_run s evs) = foldl apply_tick (lc_game s) new.
Proof.
  revert s. induction evs as [|ev evs IH]; intros s.
  - exists []. by rewrite app_nil_r.
  - destruct (IH (local_step s ev)) as (new & Ht & Hlen & Hg).
    unfold Bootstrap.local_run in *. cbn [foldl Bootstrap.lc_frame_count].
    rewrite Ht, Hg, <- Hlen.
    destruct (lc_ticks s ev) eqn:Htick.
    + destruct ev; try done. simpl in Htick. simpl. rewrite Htick.
      destruct (gameLoop_tick s) as (t & -> & -> & _).
      exists (t :: new). rewrite <- app_assoc. by simpl.
    + destruct (local_step_buffer s ev Htick) as (-> & _).
      exists new. repeat split; try done. f_equal.
      destruct ev; simpl in Htick; simpl; try done.
      * by rewrite Htick.
      * by destruct (lc_mousemove_listener s).
Qed.

(** An exception in a frame (the game state does not parse, or [draw]
    throws) ends the loop for good: no frame is requested again, so from
    then on no event ticks the game. *)
Theorem loop_stays_halted (s : @local_state number canvas game) evs :
  frame_requested s = false →
  frame_requested (local_run s evs) = false ∧
  ticks (local_run s evs) = ticks s ∧
  lc_game (local_run s evs) = lc_game s.
Proof.
  revert s. induction evs as [|ev evs IH]; intros s Hhalt; [done|].
  unfold Bootstrap.local_run in *. cbn [foldl].
  assert (frame_requested (local_step s ev) = false ∧
          ticks (local_step s ev) = ticks s ∧
          lc_game (local_step s ev) = lc_game s) as (Hf & Ht & Hg).
  { destruct ev; simpl; rewrite ?Hhalt; try done.
    by destruct (lc_mousemove_listener s). }
  destruct (IH _ Hf) as (-> & -> & ->). by rewrite Ht, Hg.
Qed.

(** While the pointer is not locked the mousemove listener is not
    installed: starting with empty deltas, the deltas stay zero through
    any events that do not lock the pointer, frames included. *)
Theorem no_movement_without_pointer_lock
    (s : @local_state number canvas game) evs :
  lc_mousemove_listener s = false →
  mouse_dx (lc_input s) = num 0 →
  mouse_dy (lc_input s) = num 0 →
  forallb (λ ev, negb (is_lock ev)) evs = true →
  mouse_dx (lc_input (local_run s evs)) = num 0 ∧
  mouse_dy (lc_input (local_run s evs)) = num 0.
Proof.
  revert s. induction evs as [|ev evs IH]; intros s Hl Hx Hy Hno; [done|].
  cbn [forallb] in Hno. apply andb_true_iff in Hno as [Hev Hrest].
  apply negb_true_iff in Hev.
  unfold Bootstrap.local_run in *. cbn [foldl].
  apply IH; try done; destruct ev as [|[]| | | |]; simpl in *;
    rewrite ?Hl; try done;
    destruct (frame_requested s); try done;
    unfold Bootstrap.gameLoop;
    destruct (JSON_parse _) as [gameState|]; try done;
    by destruct (draw_local gameState _ _) as [c ok].
Qed.

Lemma mp_step_player_id (s : @mp_state number canvas) ev :
  localPlayerId (mp_step s ev) =
  default (localPlayerId s) (welcome_id JSON_parse ev).
Proof.
  destruct ev; simpl; try done.
  - unfold Bootstrap.onmessage, onmessage_try.
    destruct (JSON_parse data) as [[| | | | |fields]|]; simpl; try done.
    destruct (is_string (own_property "type" fields) "Welcome"); [done|].
    destruct (is_string (own_property "type" fields) "GameState"); [|done].
    by destruct (draw _ _ _ _) as [c []].
  - by destruct (mousemove_listener s).
  - by destruct (button_listeners s).
  - by destruct (button_listeners s).
  - unfold Bootstrap.sendInput. destruct (input_timer s); [|done].
    by destruct (readyState s).
Qed.

(** The player id the client holds is the [id] of the last Welcome
    message received (undefined when that message had none); no other
    message and no other event changes it. *)
Theorem player_id_is_last_welcome (s : @mp_state number canvas) evs :
  localPlayerId (mp_run s evs) =
  default (localPlayerId s) (last (omap (welcome_id JSON_parse) evs)).
Proof.
  revert s. induction evs as [|ev evs IH]; intros s; [done|].
  unfold Bootstrap.mp_run in *. cbn [foldl omap list_omap].
  rewrite IH, mp_step_player_id.
  destruct (welcome_id JSON_parse ev) as [id|]; [|done].
  simpl. rewrite last_cons. by destruct (last _).
Qed.

End Facts.

(** ** The theorems at concrete inputs *)

Lemma unparseable_message_is_dropped_witness :
  let s := foldl ex_mp_step ex_mp_init
             [SocketOpen; MouseMove (MouseEvent 300%Z (-200)%Z); MouseDown] in
  mp_input (ex_mp_step s (SocketMessage "not json")) =
    InputState 300%Z 200%Z true ∧
  readyState (ex_mp_step s (SocketMessage "not json")) = OPEN.
Proof.
  intros s.
  destruct (unparseable_message_is_dropped (fun z => z) Z.add Z.sub Z.div
              Z.gtb ex_JSON_parse ex_JSON_stringify ex_draw "not json" s
              eq_refl) as (_ & _ & Hinput & Hready & _).
  split; [exact Hinput|exact Hready].
Defined.

Lemma sendInput_message_witness :
  outbox (ex_mp_step (foldl ex_mp_step ex_mp_init ex_mp_events) Interval) =
  [ex_JSON_stringify
     (JObject [ ("mouse_dx", JNumber 4%Z); ("mouse_dy", JNumber 1%Z);
                ("is_mouse_down", JBool true) ])].
Proof.
  destruct (sendInput_message (fun z => z) Z.add Z.sub Z.div Z.gtb
              ex_JSON_parse ex_JSON_stringify ex_draw Z.opp
              (fun a b => eq_sym (Z.add_opp_r a b))
              ex_mp_init ex_mp_events) as (Hout & _).
  - reflexivity.
  - reflexivity.
  - vm_compute. reflexivity.
  - vm_compute. reflexivity.
  - exact Hout.
Defined.

Lemma input_buffer_between_ticks_witness :
  lc_input (foldl ex_local_step ex_local_init ex_local_events) =
    InputState 400%Z 150%Z true ∧
  ticks (gameLoop (fun z => z) Z.div ex_JSON_parse ex_game_tick
           ex_get_game_state ex_draw_local
           (foldl ex_local_step ex_local_init ex_local_events)) =
    [(4%Z, 1%Z, true)].
Proof.
  destruct (input_buffer_between_ticks (fun z => z) Z.add Z.sub Z.div Z.gtb
              ex_JSON_parse ex_game_tick ex_get_game_state ex_draw_local
              Z.opp (fun a b => eq_sym (Z.add_opp_r a b))
              ex_local_init ex_local_events) as (Hinput & Hticks & _).
  - reflexivity.
  - reflexivity.
  - vm_compute. reflexivity.
  - split; [exact Hinput|exact Hticks].
Defined.

Lemma no_input_before_open_witness :
  mp_input (ex_mp_run ex_mp_init ex_mp_idle_events) =
    InputState 0%Z 0%Z false ∧
  outbox (ex_mp_run ex_mp_init ex_mp_idle_events) = [].
Proof.
  apply (no_input_before_open (fun z => z) Z.add Z.sub Z.div Z.gtb
           ex_JSON_parse ex_JSON_stringify ex_draw 1600%Z 900%Z 0
           ex_mp_idle_events).
  reflexivity.
Defined.

Lemma nothing_sent_after_close_witness :
  let s := ex_mp_run ex_mp_init ex_mp_events in
  outbox (ex_mp_run (onclose s) ex_mp_idle_events) = outbox s ∧
  mouse_dx (mp_input (ex_mp_run (onclose s) ex_mp_idle_events)) = 400%Z.
Proof.
  intros s.
  destruct (nothing_sent_after_close (fun z => z) Z.add Z.sub Z.div Z.gtb
              ex_JSON_parse ex_JSON_stringify ex_draw s ex_mp_idle_events)
    as (Hout & Hdx & _).
  - reflexivity.
  - split; [exact Hout|exact Hdx].
Defined.

Lemma loop_stays_halted_witness :
  ticks (ex_local_run ex_halted [LMouseDown; LAnimationFrame]) = [] ∧
  frame_requested (ex_local_run ex_halted [LMouseDown; LAnimationFrame]) =
    false.
Proof.
  destruct (loop_stays_halted (fun z => z) Z.add Z.sub Z.div Z.gtb
              ex_JSON_parse ex_game_tick ex_get_game_state ex_draw_local
              ex_halted [LMouseDown; LAnimationFrame]) as (Hf & Ht & _).
  - reflexivity.
  - split; [exact Ht|exact Hf].
Defined.

Lemma no_movement_without_pointer_lock_witness :
  mouse_dx (lc_input (ex_local_run ex_local_init ex_local_unlocked_events)) =
    0%Z ∧
  mouse_dy (lc_input (ex_local_run ex_local_init ex_local_unlocked_events)) =
    0%Z.
Proof.
  apply (no_movement_without_pointer_lock (fun z => z) Z.add Z.sub Z.div
           Z.gtb ex_JSON_parse ex_game_tick ex_get_game_state ex_draw_local
           ex_local_init ex_local_unlocked_events); reflexivity.
Defined.

End BootstrapFacts.

(** * Properties of the rendering code *)

Module RenderingFacts.

Import Bootstrap.

Section Facts.

Context {number : Type}.
Variable num : Z -> number.
Variable sub mul div : number -> number -> number.
Variable opp : number -> number.
Variable eqb : number -> number -> bool.
Variable lit : string -> number.
Variable Math_PI : number.
Variable cursorDefault cursorGrabbing : @image number.

Local Abbreviation draw_boundary := (Bootstrap.draw_boundary num sub mul).
Local Abbreviation draw_object :=
  (Bootstrap.draw_object num mul opp eqb Math_PI).
Local Abbreviation object_fill := (Bootstrap.object_fill num eqb).
Local Abbreviation player_image :=
  (Bootstrap.player_image num eqb cursorDefault cursorGrabbing).
Local Abbreviation draw_scene :=
  (Bootstrap.draw_scene num sub mul div opp eqb Math_PI).
Local Abbreviation mp_drawCursor :=
  (Bootstrap.mp_drawCursor num div opp eqb lit cursorDefault cursorGrabbing).
Local Abbreviation lc_drawCursor :=
  (Bootstrap.lc_drawCursor num div opp eqb lit cursorDefault cursorGrabbing).
Local Abbreviation mp_draw :=
  (Bootstrap.mp_draw num sub mul div opp eqb lit Math_PI
     cursorDefault cursorGrabbing).
Local Abbreviation lc_draw :=
  (Bootstrap.lc_draw num sub mul div opp eqb lit Math_PI
     cursorDefault cursorGrabbing).
Local Abbreviation strict_equal := (Bootstrap.strict_equal eqb).

Lemma exec_all_app (c : @context2d number) calls1 calls2 :
  exec_all c (calls1 ++ calls2) = exec_all (exec_all c calls1) calls2.
Proof. apply foldl_app. Qed.

Lemma exec_boundaries (c : @context2d number) bs :
  exec_all c (concat (map draw_boundary bs)) =
  Context2d (current c) (saved c)
            (fills c ++ ((λ _, fillStyle (current c)) <$> bs)) (images c).
Proof.
  revert c. induction bs as [|b bs IH]; intros c; simpl.
  - rewrite app_nil_r. by destruct c.
  - unfold exec_all in *. rewrite IH. simpl. by rewrite <- app_assoc.
Qed.

Lemma exec_object (c : @context2d number) obj :
  exec_all c (draw_object obj) =
  Context2d (current c) (saved c)
            (fills c ++ option_list (object_fill obj)) (images c).
Proof.
  unfold Bootstrap.draw_object, object_shape, Bootstrap.object_fill.
  destruct c as [[style alpha t] sv fl im].
  repeat case_decide; simpl; by rewrite ?app_nil_r.
Qed.

Lemma exec_objects (c : @context2d number) objs :
  exec_all c (concat (map draw_object objs)) =
  Context2d (current c) (saved c)
            (fills c ++ omap object_fill objs) (images c).
Proof.
  revert c. induction objs as [|obj objs IH]; intros c.
  - simpl. rewrite app_nil_r. by destruct c.
  - cbn [map concat]. rewrite exec_all_app, exec_object, IH. simpl.
    rewrite <- app_assoc. by destruct (object_fill obj).
Qed.

(** After the scene the context is one level deeper in the save stack,
    with the world transformation and the fill style "white". *)
Lemma exec_scene (c : @context2d number) gameState scale width height :
  exec_all c (draw_scene gameState scale width height) =
  Context2d
    (DrawingState "white" (globalAlpha (current c))
       (transform (current c) ++
        [Translate (div width (num 2)) (div height (num 2));
         Scale scale (opp scale)]))
    (DrawingState "#222" (globalAlpha (current c)) (transform (current c))
     :: saved c)
    (fills c ++ ["#222"] ++ ((λ _, "white") <$> boundaries gameState) ++
     omap object_fill (objects gameState))
    (images c).
Proof.
  unfold Bootstrap.draw_scene.
  rewrite !exec_all_app, exec_objects, exec_boundaries.
  destruct c as [[style alpha t] sv fl im]. simpl.
  by rewrite <- !app_assoc.
Qed.

Lemma exec_mp_drawCursor (c : @context2d number) x y grabbing over isLocal :
  exec_all c (mp_drawCursor x y grabbing over isLocal) =
  Context2d (current c) (saved c) (fills c)
    (images c ++
     (if image_ready num eqb
           match cursor_choice grabbing over with
           | CursorGrabbing => cursorGrabbing
           | CursorDefault => cursorDefault
           end
      then [(cursor_choice grabbing over,
             if isLocal then globalAlpha (current c) else lit "0.5")]
      else [])).
Proof.
  unfold Bootstrap.mp_drawCursor.
  destruct c as [[style alpha t] sv fl im].
  destruct (image_ready _ _ _); [|by rewrite app_nil_r].
  by destruct isLocal.
Qed.

Lemma exec_lc_drawCursor (c : @context2d number) x y grabbing over :
  exec_all c (lc_drawCursor x y grabbing over) =
  Context2d (current c) (saved c) (fills c)
    (images c ++
     (if image_ready num eqb
           match cursor_choice grabbing over with
           | CursorGrabbing => cursorGrabbing
           | CursorDefault => cursorDefault
           end
      then [(cursor_choice grabbing over, globalAlpha (current c))]
      else [])).
Proof.
  unfold Bootstrap.lc_drawCursor.
  destruct c as [[style alpha t] sv fl im].
  by destruct (image_ready _ _ _); [|rewrite app_nil_r].
Qed.

Lemma exec_mp_players (c : @context2d number) localPlayerId ps :
  exec_all c
    (concat (map (λ p, mp_drawCursor (p_x p) (p_y p) (p_is_grabbing p)
                         (p_is_over_grabbable p)
                         (strict_equal (Some (p_id p)) localPlayerId)) ps)) =
  Context2d (current c) (saved c) (fills c)
    (images c ++
     omap (λ p, (λ img, (img, if strict_equal (Some (p_id p)) localPlayerId
                              then globalAlpha (current c)
                              else lit "0.5")) <$> player_image p) ps).
Proof.
  revert c. induction ps as [|p ps IH]; intros c.
  - simpl. rewrite app_nil_r. by destruct c.
  - cbn [map concat]. rewrite exec_all_app, exec_mp_drawCursor, IH. simpl.
    rewrite <- app_assoc. unfold Bootstrap.player_image.
    by destruct (image_ready _ _ _).
Qed.

Lemma exec_lc_players (c : @context2d number) ps :
  exec_all c
    (concat (map (λ p, lc_drawCursor (p_x p) (p_y p) (p_is_grabbing p)
                         (p_is_over_grabbable p)) ps)) =
  Context2d (current c) (saved c) (fills c)
    (images c ++
     omap (λ p, (λ img, (img, globalAlpha (current c))) <$> player_image p)
          ps).
Proof.
  revert c. induction ps as [|p ps IH]; intros c.
  - simpl. rewrite app_nil_r. by destruct c.
  - cbn [map concat]. rewrite exec_all_app, exec_lc_drawCursor, IH. simpl.
    rewrite <- app_assoc. unfold Bootstrap.player_image.
    by destruct (image_ready _ _ _).
Qed.

Lemma exec_mp_draw (c : @context2d number) localPlayerId gameState
    scale width height :
  exec_all c (mp_draw localPlayerId gameState scale width height) =
  Context2d
    (DrawingState "#222" (globalAlpha (current c)) (transform (current c)))
    (saved c)
    (fills c ++ ["#222"] ++ ((λ _, "white") <$> boundaries gameState) ++
     omap object_fill (objects gameState))
    (images c ++
     omap (λ p, (λ img, (img, if strict_equal (Some (p_id p)) localPlayerId
                              then globalAlpha (current c)
                              else lit "0.5")) <$> player_image p)
          (players gameState)).
Proof.
  unfold Bootstrap.mp_draw.
  by rewrite !exec_all_app, exec_scene, exec_mp_players.
Qed.

Lemma exec_lc_draw (c : @context2d number) gameState scale width height :
  exec_all c (lc_draw gameState scale width height) =
  Context2d
    (DrawingState "#222" (globalAlpha (current c)) (transform (current c)))
    (saved c)
    (fills c ++ ["#222"] ++ ((λ _, "white") <$> boundaries gameState) ++
     omap object_fill (objects gameState))
    (images c ++
     omap (λ p, (λ img, (img, globalAlpha (current c))) <$> player_image p)
          (players gameState)).
Proof.
  unfold Bootstrap.lc_draw.
  by rewrite !exec_all_app, exec_scene, exec_lc_players.
Qed.





End Facts.

End RenderingFacts.
